(** * tgbot: the update-dispatch engine of a long-polling Telegram bot

  A shallow embedding of the Go package [tgbot] (the bot with its options,
  the per-update context, the acquisition loop and the workers) and the
  properties of it that the specification states. *)

From Stdlib Require Import ZArith List String Bool Lia Sorted.
From stdpp Require Import gmap strings.

Local Open Scope string_scope.
Local Open Scope list_scope.
Local Open Scope Z_scope.

(** ** Go's [int] *)

(** Go's [int] on a 64-bit platform: two's complement, arithmetic wraps. *)
Module GoInt.

Definition min_int : Z := - 2 ^ 63.
Definition max_int : Z := 2 ^ 63 - 1.

Definition in_range (z : Z) : Prop := min_int <= z <= max_int.

(** The value a 64-bit signed register holds after computing [z]. *)
Definition wrap (z : Z) : Z := (z + 2 ^ 63) mod 2 ^ 64 - 2 ^ 63.

Definition add (a b : Z) : Z := wrap (a + b).

End GoInt.

(** ** The Telegram types the package reads

    [tgbotapi.Message], [tgbotapi.Chat], [tgbotapi.Update] and the client
    [tgbotapi.BotAPI] belong to the client library.  A message is kept as
    what the package asks of it: the results of its methods [IsCommand],
    [Command] and [CommandArguments]. *)

Record Chat := { ID : Z }.

Record Message := {
  IsCommand : bool;
  MessageCommand : string;
  CommandArguments : string;
}.

(** A pointer field is an [option]: [None] is Go's [nil].  [FromChat] is the
    result of the library method of that name, [nil] for an update that
    carries no chat. *)
Record Update := {
  UpdateID : Z;
  Update_Message : option Message;
  Update_EditedMessage : option Message;
  Update_ChannelPost : option Message;
  Update_EditedChannelPost : option Message;
  FromChat : option Chat;
}.

Record MessageConfig := {
  ChatID : Z;
  Text : string;
  DisableWebPagePreview : bool;
  ParseMode : string;
}.

Record BotCommand := {
  BotCommand_Command : string;
  BotCommand_Description : string;
}.

Definition error := string.

(** The client, as the answers of the remote service: the error (or [nil])
    of sending a message and of setting the command menu. *)
Record BotAPI := {
  Send : MessageConfig -> option error;
  SetMyCommands : list BotCommand -> option error;
}.

(** [*ants.Pool], as the answer of its [Submit]: [nil] when the pool takes
    the task, an error when it is closed or overloaded. *)
Record Pool := { Submit_error : option error }.

(** ** Panics

    A value of type [interface{}]: [None] is [nil], [Some s] a value that
    [%v] prints as [s]. *)
Definition interface := option string.

(** The value the Go runtime panics with on a nil dereference or a call of a
    nil function. *)
Definition nil_dereference : interface :=
  Some "runtime error: invalid memory address or nil pointer dereference".

(** What a call of a user-supplied function does: it returns, or it
    panics. *)
Inductive outcome (A : Type) :=
| Returns (a : A)
| Panics (v : interface).

Arguments Returns {A} a.
Arguments Panics {A} v.

(** ** context.go *)

(** The per-update context: the client and the update it is bound to (the
    embedded [context.Context] only carries cancellation). *)
Record Context := {
  Context_BotAPI : BotAPI;
  update : Update;
}.

Definition MessageConfigOption := MessageConfig -> MessageConfig.

Module Ctx.

(** The fields [Message] reads, in the order of its [switch]. *)
Definition message_fields (u : Update) : list (option Message) :=
  [Update_Message u; Update_EditedMessage u;
   Update_ChannelPost u; Update_EditedChannelPost u].

(** The first non-nil pointer of a list, [nil] when there is none: the
    specification's reading of [Message]. *)
Fixpoint first_non_nil {A : Type} (ps : list (option A)) : option A :=
  match ps with
  | [] => None
  | Some a :: _ => Some a
  | None :: rest => first_non_nil rest
  end.

(** [func (ctx *Context) Message() *tgbotapi.Message] *)
Definition Message (ctx : Context) : option Message :=
  match Update_Message (update ctx) with
  | Some m => Some m
  | None =>
    match Update_EditedMessage (update ctx) with
    | Some m => Some m
    | None =>
      match Update_ChannelPost (update ctx) with
      | Some m => Some m
      | None =>
        match Update_EditedChannelPost (update ctx) with
        | Some m => Some m
        | None => None
        end
      end
    end
  end.

(** [func (ctx *Context) Command() string] *)
Definition Command (ctx : Context) : string :=
  match Message ctx with
  | Some message => MessageCommand message
  | None => ""
  end.

(** [func (ctx *Context) CommandArgs() string] *)
Definition CommandArgs (ctx : Context) : string :=
  match Message ctx with
  | Some message => CommandArguments message
  | None => ""
  end.

End Ctx.

(** ** The functions a user supplies *)

(** [type Handler func(ctx *Context) error] *)
Definition Handler := Context -> outcome (option error).

(** [type UpdatesHandler func(ctx *Context)] *)
Definition UpdatesHandler := Context -> outcome unit.

(** [type ErrHandler func(err error)]: the error reporter, run for its
    effect.  The model keeps which function it is and records every call;
    a reporter returns. *)
Inductive ErrHandler :=
| ErrHandlerNop                     (* NewBot's func(err error) {} *)
| ErrHandlerUser (name : string).

(** [func(interface{}) (message string)]: the closure that [NewBot]
    installs, which reads [bot.errHandler] when it runs, or a function of
    the user. *)
Inductive PanicHandler :=
| PanicHandlerDefault
| PanicHandlerUser (f : interface -> string).

(** ** Effects

    What a run of the package's code does to the world, in order. *)
Inductive event :=
| EvHandler (h : Handler) (ctx : Context)          (* a command handler runs *)
| EvUpdatesHandler (h : UpdatesHandler) (ctx : Context)
| EvErrHandler (h : ErrHandler) (err : error)      (* bot.errHandler(err) *)
| EvPanicHandler (f : interface -> string) (v : interface)
| EvSend (msg : MessageConfig)                     (* BotAPI.Send *)
| EvSetMyCommands (cmds : list BotCommand)         (* BotAPI.Request *)
| EvSubmit                                         (* workerPool.Submit *)
| EvPut (ctx : Context)                            (* ctx.put() *)
| EvInPool (e : event).                 (* e happens on a pool goroutine *)

(** How a piece of code ends: normally with a value, or panicking. *)
Inductive result (A : Type) :=
| Normal (a : A)
| Panic (v : interface).

Arguments Normal {A} a.
Arguments Panic {A} v.

(** A computation: the events it causes and how it ends. *)
Definition M (A : Type) : Type := list event * result A.

Definition ret {A} (a : A) : M A := ([], Normal a).

Definition bind {A B} (m : M A) (f : A -> M B) : M B :=
  match m with
  | (t, Normal a) => let '(t', r) := f a in (t ++ t', r)
  | (t, Panic v) => (t, Panic v)
  end.

Definition emit (e : event) : M unit := ([e], Normal tt).

Definition panic {A} (v : interface) : M A := ([], Panic v).

Notation "x <- m ;; k" := (bind m (fun x => k))
  (at level 100, m at next level, right associativity).
Notation "m ;;; k" := (bind m (fun _ => k))
  (at level 100, right associativity).

Definition trace {A} (m : M A) : list event := fst m.
Definition outcome_of {A} (m : M A) : result A := snd m.

(** [defer func() { if e := recover(); e != nil { handler e } }()] around
    [body]: [recover] ends the panic, also when its value is [nil]. *)
Definition defer_recover (body : M unit) (handler : interface -> M unit)
  : M unit :=
  match body with
  | (t, Normal a) => (t, Normal a)
  | (t, Panic None) => (t, Normal tt)
  | (t, Panic (Some s)) => let '(t', r) := handler (Some s) in (t ++ t', r)
  end.

(** Calling a function value that may be nil. *)
Definition call {A B} (f : option (A -> outcome B)) (ev : (A -> outcome B) -> A -> event)
  (a : A) : M B :=
  match f with
  | None => panic nil_dereference
  | Some g =>
    emit (ev g a) ;;;
    match g a with
    | Returns b => ret b
    | Panics v => panic v
    end
  end.

(** ** The bot *)

(** [type Command struct] *)
Record Command := {
  Name : string;
  Description : string;
  Hide : bool;
  Command_Handler : option Handler;
}.

(** [func (c Command) String() string] *)
Definition Command_String (c : Command) : string :=
  ("/" ++ Name c ++ " - " ++ Description c)%string.

(** [type Bot struct], without the machinery of a run ([wg], [pool], [ctx],
    [cancel], [updateC]), which the transition system below carries.  A
    function field that may be nil is an [option]. *)
Record Bot := {
  api : BotAPI;
  commands : list Command;
  cmdHandlers : gmap string (option Handler);   (* a nil Handler is a value like another *)
  timeout : Z;   (* time.Duration, in nanoseconds *)
  undefinedCommandHandler : option Handler;
  errHandler : ErrHandler;   (* never nil: see NewBot and WithErrorHandler *)
  updatesHandler : option UpdatesHandler;
  panicHandler : option PanicHandler;
  workerNum : Z;
  workerPool : option Pool;
  bufSize : Z;
  updateTimeout : Z;
  limit : Z;
  offset : Z;
  allowedUpdates : list string;
  autoSetupCommands : bool;   (* written by WithAutoSetupCommands, read nowhere *)
}.

(** Assignments to one field, [b.f = v]. *)
Definition set_api (v : BotAPI) (b : Bot) : Bot :=
  let 'Build_Bot _ x1 x2 x3 x4 x5 x6 x7 x8 x9 x10 x11 x12 x13 x14 x15 := b in
  Build_Bot v x1 x2 x3 x4 x5 x6 x7 x8 x9 x10 x11 x12 x13 x14 x15.

Definition set_commands (v : list Command) (b : Bot) : Bot :=
  let 'Build_Bot x0 _ x2 x3 x4 x5 x6 x7 x8 x9 x10 x11 x12 x13 x14 x15 := b in
  Build_Bot x0 v x2 x3 x4 x5 x6 x7 x8 x9 x10 x11 x12 x13 x14 x15.

Definition set_cmdHandlers (v : gmap string (option Handler)) (b : Bot) : Bot :=
  let 'Build_Bot x0 x1 _ x3 x4 x5 x6 x7 x8 x9 x10 x11 x12 x13 x14 x15 := b in
  Build_Bot x0 x1 v x3 x4 x5 x6 x7 x8 x9 x10 x11 x12 x13 x14 x15.


Definition set_undefinedCommandHandler (v : option Handler) (b : Bot) : Bot :=
  let 'Build_Bot x0 x1 x2 x3 _ x5 x6 x7 x8 x9 x10 x11 x12 x13 x14 x15 := b in
  Build_Bot x0 x1 x2 x3 v x5 x6 x7 x8 x9 x10 x11 x12 x13 x14 x15.

Definition set_errHandler (v : ErrHandler) (b : Bot) : Bot :=
  let 'Build_Bot x0 x1 x2 x3 x4 _ x6 x7 x8 x9 x10 x11 x12 x13 x14 x15 := b in
  Build_Bot x0 x1 x2 x3 x4 v x6 x7 x8 x9 x10 x11 x12 x13 x14 x15.

Definition set_updatesHandler (v : option UpdatesHandler) (b : Bot) : Bot :=
  let 'Build_Bot x0 x1 x2 x3 x4 x5 _ x7 x8 x9 x10 x11 x12 x13 x14 x15 := b in
  Build_Bot x0 x1 x2 x3 x4 x5 v x7 x8 x9 x10 x11 x12 x13 x14 x15.

Definition set_panicHandler (v : option PanicHandler) (b : Bot) : Bot :=
  let 'Build_Bot x0 x1 x2 x3 x4 x5 x6 _ x8 x9 x10 x11 x12 x13 x14 x15 := b in
  Build_Bot x0 x1 x2 x3 x4 x5 x6 v x8 x9 x10 x11 x12 x13 x14 x15.

Definition set_workerNum (v : Z) (b : Bot) : Bot :=
  let 'Build_Bot x0 x1 x2 x3 x4 x5 x6 x7 _ x9 x10 x11 x12 x13 x14 x15 := b in
  Build_Bot x0 x1 x2 x3 x4 x5 x6 x7 v x9 x10 x11 x12 x13 x14 x15.

Definition set_workerPool (v : option Pool) (b : Bot) : Bot :=
  let 'Build_Bot x0 x1 x2 x3 x4 x5 x6 x7 x8 _ x10 x11 x12 x13 x14 x15 := b in
  Build_Bot x0 x1 x2 x3 x4 x5 x6 x7 x8 v x10 x11 x12 x13 x14 x15.

Definition set_bufSize (v : Z) (b : Bot) : Bot :=
  let 'Build_Bot x0 x1 x2 x3 x4 x5 x6 x7 x8 x9 _ x11 x12 x13 x14 x15 := b in
  Build_Bot x0 x1 x2 x3 x4 x5 x6 x7 x8 x9 v x11 x12 x13 x14 x15.


Definition set_limit (v : Z) (b : Bot) : Bot :=
  let 'Build_Bot x0 x1 x2 x3 x4 x5 x6 x7 x8 x9 x10 x11 _ x13 x14 x15 := b in
  Build_Bot x0 x1 x2 x3 x4 x5 x6 x7 x8 x9 x10 x11 v x13 x14 x15.

Definition set_offset (v : Z) (b : Bot) : Bot :=
  let 'Build_Bot x0 x1 x2 x3 x4 x5 x6 x7 x8 x9 x10 x11 x12 _ x14 x15 := b in
  Build_Bot x0 x1 x2 x3 x4 x5 x6 x7 x8 x9 x10 x11 x12 v x14 x15.


Definition set_autoSetupCommands (v : bool) (b : Bot) : Bot :=
  let 'Build_Bot x0 x1 x2 x3 x4 x5 x6 x7 x8 x9 x10 x11 x12 x13 x14 _ := b in
  Build_Bot x0 x1 x2 x3 x4 x5 x6 x7 x8 x9 x10 x11 x12 x13 x14 v.

(** ** options.go *)

(** [type Option func(b *Bot)] *)
Definition Option := Bot -> Bot.



Definition WithWorkerNum (n : Z) : Option :=
  fun b => if 0 <? workerNum b then set_workerNum n b else b.

Definition WithWorkerPool (p : option Pool) : Option := set_workerPool p.

Definition WithUndefinedCmdHandler (h : option Handler) : Option :=
  fun b =>
    match h with
    | Some _ => set_undefinedCommandHandler h b
    | None => b
    end.

Definition WithErrorHandler (h : option ErrHandler) : Option :=
  fun b =>
    match h with
    | Some f => set_errHandler f b
    | None => b
    end.

Definition WithAutoSetupCommands (v : bool) : Option := set_autoSetupCommands v.



Definition WithUpdatesHandler (handler : option UpdatesHandler) : Option :=
  set_updatesHandler handler.

Definition WithPanicHandler (h : option PanicHandler) : Option :=
  set_panicHandler h.


(** ** The bot's construction and registry *)

(** The composite literal of [NewBot] and the panic handler assigned after
    it; a field the literal leaves out has Go's zero value.  [gomaxprocs] is
    [runtime.GOMAXPROCS(0)]. *)
Definition NewBot_literal (gomaxprocs : Z) (api : BotAPI) : Bot :=
  {| api := api;
     commands := [];
     cmdHandlers := ∅;
     timeout := 0;
     undefinedCommandHandler := None;
     errHandler := ErrHandlerNop;
     updatesHandler := None;
     panicHandler := Some PanicHandlerDefault;
     workerNum := gomaxprocs;
     workerPool := None;
     bufSize := 0;
     updateTimeout := 60;
     limit := 100;
     offset := 0;
     allowedUpdates := [];
     autoSetupCommands := false |}.

(** [func NewBot(api *tgbotapi.BotAPI, opts ...Option) *Bot]: the options in
    their order, then the buffer size.  The cancellable context and the
    channel it makes start the run. *)
Definition NewBot (gomaxprocs : Z) (api : BotAPI) (opts : list Option) : Bot :=
  let bot := fold_left (fun b (o : Option) => o b) opts (NewBot_literal gomaxprocs api) in
  if bufSize bot =? 0 then set_bufSize (limit bot) bot else bot.

(** [func (bot *Bot) AddCommand(cmd *Command)] *)
Definition AddCommand (cmd : Command) (bot : Bot) : Bot :=
  set_cmdHandlers (<[Name cmd := Command_Handler cmd]> (cmdHandlers bot))
    (set_commands (commands bot ++ [cmd]) bot).

(** [func (bot *Bot) Commands() []*Command] *)
Definition Commands (bot : Bot) : list Command :=
  filter (fun cmd => Hide cmd = false) (commands bot).

(** ** Replies (context.go) *)

Definition ModeMarkdown : string := "Markdown".
Definition ModeHTML : string := "HTML".

(** [tgbotapi.NewMessage(chatID, text)] *)
Definition NewMessage (chatID : Z) (text : string) : MessageConfig :=
  {| ChatID := chatID; Text := text;
     DisableWebPagePreview := false; ParseMode := "" |}.

(** [func (ctx *Context) reply(text string, opts ...MessageConfigOption) error]:
    [FromChat().ID] dereferences what [FromChat] returns. *)
Definition reply (ctx : Context) (text : string) (opts : list MessageConfigOption)
  : M (option error) :=
  match FromChat (update ctx) with
  | None => panic nil_dereference
  | Some chat =>
    let msg := NewMessage (ID chat) text in
    let msg := {| ChatID := ChatID msg; Text := Text msg;
                  DisableWebPagePreview := true; ParseMode := ParseMode msg |} in
    let msg := fold_left (fun m (o : MessageConfigOption) => o m) opts msg in
    emit (EvSend msg) ;;; ret (Send (Context_BotAPI ctx) msg)
  end.

Definition ReplyText (ctx : Context) (text : string) (opts : list MessageConfigOption)
  : M (option error) :=
  reply ctx text opts.

Definition mergeOpts (a : MessageConfigOption) (b : list MessageConfigOption)
  : list MessageConfigOption :=
  [a] ++ b.

Definition ReplyMarkdown (ctx : Context) (text : string) (opts : list MessageConfigOption)
  : M (option error) :=
  reply ctx text
    (mergeOpts (fun c => {| ChatID := ChatID c; Text := Text c;
                            DisableWebPagePreview := DisableWebPagePreview c;
                            ParseMode := ModeMarkdown |}) opts).

Definition ReplyHTML (ctx : Context) (text : string) (opts : list MessageConfigOption)
  : M (option error) :=
  reply ctx text
    (mergeOpts (fun c => {| ChatID := ChatID c; Text := Text c;
                            DisableWebPagePreview := DisableWebPagePreview c;
                            ParseMode := ModeHTML |}) opts).

(** ** The execution of one update *)

(** [bot.errHandler(err)] *)
Definition report (bot : Bot) (err : error) : M unit :=
  emit (EvErrHandler (errHandler bot) err).

(** [bot.panicHandler(e)].  The default is the closure of [NewBot]:
    [if v != nil { bot.errHandler(fmt.Errorf("tgbot panic: %v", v)) }] and
    the fixed message. *)
Definition call_panicHandler (bot : Bot) (e : interface) : M string :=
  match panicHandler bot with
  | None => panic nil_dereference
  | Some PanicHandlerDefault =>
    match e with
    | Some s => report bot ("tgbot panic: " ++ s)%string
    | None => ret tt
    end ;;;
    ret "oops! Service is temporarily unavailable"
  | Some (PanicHandlerUser f) =>
    emit (EvPanicHandler f e) ;;; ret (f e)
  end.

(** [func (bot *Bot) allocateContext() *Context] followed by
    [ctx.update = update]: a context of the reuse pool or a new one, bound
    to the update. *)
Definition allocateContext (bot : Bot) (update : Update) : Context :=
  {| Context_BotAPI := api bot; update := update |}.

(** [func (bot *Bot) undefinedCmdHandler(ctx *Context) error] *)
Definition undefinedCmdHandler (bot : Bot) (ctx : Context) : M (option error) :=
  match undefinedCommandHandler bot with
  | Some h => call (Some h) EvHandler ctx
  | None => ReplyText ctx "Unrecognized command!!!" []
  end.

(** [func (bot *Bot) executeCommandHandler(ctx *Context)] *)
Definition executeCommandHandler (bot : Bot) (ctx : Context) : M unit :=
  err <- match cmdHandlers bot !! Ctx.Command ctx with
         | Some handler => call handler EvHandler ctx
         | None => undefinedCmdHandler bot ctx
         end ;;
  match err with
  | Some e => report bot e
  | None => ret tt
  end.

(** [func (bot *Bot) executeUpdatesHandler(ctx *Context)] *)
Definition executeUpdatesHandler (bot : Bot) (ctx : Context) : M unit :=
  match updatesHandler bot with
  | None => ret tt
  | Some h => call (Some h) EvUpdatesHandler ctx
  end.

(** [update.Message != nil && update.Message.IsCommand()] *)
Definition is_command_update (u : Update) : bool :=
  match Update_Message u with
  | Some m => IsCommand m
  | None => false
  end.

(** The closure [executeHandler] of [handleUpdate].  A positive [timeout]
    only bounds the [context.Context] handed on, which the model does not
    carry. *)
Definition executeHandler (bot : Bot) (ctx : Context) : M unit :=
  (if is_command_update (update ctx)
   then executeCommandHandler bot ctx
   else executeUpdatesHandler bot ctx) ;;;
  emit (EvPut ctx).

(** [bot.workerPool.Submit(task)]: a pool that takes the task runs it on a
    goroutine of its own, where a panic is the pool's to deal with; the
    model places that run at the submission. *)
Definition Submit (p : Pool) (task : M unit) : M (option error) :=
  emit EvSubmit ;;;
  match Submit_error p with
  | Some err => ret (Some err)
  | None => (map EvInPool (trace task), Normal None)
  end.

(** The deferred function of [handleUpdate], from [e != nil] on. *)
Definition recovered (bot : Bot) (ctx : Context) (e : interface) : M unit :=
  tipMessage <- call_panicHandler bot e ;;
  if String.eqb tipMessage ""
  then ret tt
  else
    err <- ReplyText ctx tipMessage [] ;;
    match err with
    | Some e' => report bot e'
    | None => ret tt
    end.

(** [handleUpdate] from the declaration of [executeHandler] to its end. *)
Definition handleUpdate_body (bot : Bot) (ctx : Context) : M unit :=
  match workerPool bot with
  | Some p =>
    err <- Submit p (executeHandler bot ctx) ;;
    match err with
    | Some e => report bot e
    | None => ret tt
    end
  | None => ret tt
  end ;;;
  executeHandler bot ctx.

(** [bot.workerPool == nil || bot.panicHandler != nil] *)
Definition installs_recovery (bot : Bot) : bool :=
  match workerPool bot, panicHandler bot with
  | None, _ => true
  | Some _, Some _ => true
  | Some _, None => false
  end.

(** [func (bot *Bot) handleUpdate(update *tgbotapi.Update)] *)
Definition handleUpdate (bot : Bot) (update : Update) : M unit :=
  let ctx := allocateContext bot update in
  if installs_recovery bot
  then defer_recover (handleUpdate_body bot ctx) (recovered bot ctx)
  else handleUpdate_body bot ctx.

(** One worker of [startWorkers] on the updates it receives, in order: it
    handles one and takes the next; a panic that leaves [handleUpdate] ends
    the goroutine. *)
Fixpoint startWorker (bot : Bot) (received : list Update) : M unit :=
  match received with
  | [] => ret tt
  | update :: rest => handleUpdate bot update ;;; startWorker bot rest
  end.

(** [func (bot *Bot) setupCommands() error] *)
Definition setupCommands (bot : Bot) : M (option error) :=
  let commands :=
    map (fun hdr => {| BotCommand_Command := Name hdr;
                       BotCommand_Description := Description hdr |})
        (Commands bot) in
  emit (EvSetMyCommands commands) ;;;
  ret (SetMyCommands (api bot) commands).

(** ** The acquisition loop on one batch *)

(** The body of [for _, update := range updates] in [pollUpdates], on the
    offset and the updates sent on [updateC] so far.  What is sent is the
    address of the range variable; the model sends the update it holds at
    the send, which is what a receiver reads when every iteration has a
    variable of its own. *)
Definition range_body (st : Z * list Update) (update : Update) : Z * list Update :=
  let '(offset, updateC) := st in
  if UpdateID update >=? offset
  then (GoInt.add (UpdateID update) 1, updateC ++ [update])
  else (offset, updateC).

Definition rangeUpdates (offset : Z) (updateC : list Update) (updates : list Update)
  : Z * list Update :=
  fold_left range_body updates (offset, updateC).

(** ** The run: loop, workers and [Stop] as a transition system *)

Module Runtime.

(** Where [pollUpdates] stands. *)
Inductive loop_pc :=
| LTop                                      (* at the select on ctx.Done() *)
| LFetch                                    (* in GetUpdates *)
| LRange (updates : list Update)            (* at the head of the range loop *)
| LSend (update : Update) (rest : list Update)  (* at bot.updateC <- &update *)
| LExit.                                    (* returned *)

(** Where a worker stands. *)
Inductive worker_pc :=
| WSelect                                   (* at its select *)
| WHandle (update : Update)                 (* in handleUpdate *)
| WExit.                                    (* returned, after wg.Done() *)

(** Where a caller of [Stop] stands. *)
Inductive stop_pc :=
| SNotCalled
| SWait                                     (* after cancel(), in wg.Wait() *)
| SReturned.

Record state := {
  cancelled : bool;                         (* bot.ctx is done *)
  offset : Z;                               (* bot.offset *)
  updateC : list Update;                    (* the buffer, oldest first *)
  sent : list Update;                       (* every update sent so far *)
  loop : loop_pc;
  workers : list worker_pc;
  wg : nat;                                 (* the counter of bot.wg *)
  stop : stop_pc;
}.

Definition set_cancelled (v : bool) (s : state) : state :=
  Build_state v (offset s) (updateC s) (sent s) (loop s) (workers s) (wg s) (stop s).

Definition set_loop (v : loop_pc) (s : state) : state :=
  Build_state (cancelled s) (offset s) (updateC s) (sent s) v (workers s) (wg s) (stop s).

Definition set_offset (v : Z) (s : state) : state :=
  Build_state (cancelled s) v (updateC s) (sent s) (loop s) (workers s) (wg s) (stop s).

Definition set_updateC (v : list Update) (s : state) : state :=
  Build_state (cancelled s) (offset s) v (sent s) (loop s) (workers s) (wg s) (stop s).

Definition set_sent (v : list Update) (s : state) : state :=
  Build_state (cancelled s) (offset s) (updateC s) v (loop s) (workers s) (wg s) (stop s).

Definition set_worker (i : nat) (v : worker_pc) (s : state) : state :=
  Build_state (cancelled s) (offset s) (updateC s) (sent s) (loop s)
    (<[i := v]> (workers s)) (wg s) (stop s).

Definition set_wg (v : nat) (s : state) : state :=
  Build_state (cancelled s) (offset s) (updateC s) (sent s) (loop s) (workers s) v (stop s).

Definition set_stop (v : stop_pc) (s : state) : state :=
  Build_state (cancelled s) (offset s) (updateC s) (sent s) (loop s) (workers s) (wg s) v.

(** The state [Run] leaves behind once [startWorkers] has started
    [workerNum] workers and [go bot.pollUpdates()] the loop. *)
Definition started (workerNum : nat) (offset : Z) : state :=
  {| cancelled := false; offset := offset; updateC := []; sent := [];
     loop := LTop; workers := replicate workerNum WSelect;
     wg := workerNum; stop := SNotCalled |}.

(** One atomic step of one goroutine; [bufSize] is the capacity of
    [updateC]. *)
Inductive step (bufSize : nat) : state -> state -> Prop :=
(* pollUpdates: select { case <-bot.ctx.Done(): return; default: } *)
| loop_done s :
    loop s = LTop -> cancelled s = true ->
    step bufSize s (set_loop LExit s)
| loop_default s :
    loop s = LTop -> cancelled s = false ->
    step bufSize s (set_loop LFetch s)
(* GetUpdates returns a batch; after an error other than a cancellation the
   loop reports it, sleeps and continues; after a cancellation it ranges
   over no update *)
| loop_fetched s updates :
    loop s = LFetch ->
    step bufSize s (set_loop (LRange updates) s)
| loop_fetch_failed s :
    loop s = LFetch ->
    step bufSize s (set_loop LTop s)
(* the range loop *)
| loop_range_end s :
    loop s = LRange [] ->
    step bufSize s (set_loop LTop s)
| loop_range_skip s update rest :
    loop s = LRange (update :: rest) ->
    UpdateID update < offset s ->
    step bufSize s (set_loop (LRange rest) s)
| loop_range_advance s update rest :
    loop s = LRange (update :: rest) ->
    UpdateID update >= offset s ->
    step bufSize s
      (set_loop (LSend update rest) (set_offset (GoInt.add (UpdateID update) 1) s))
(* bot.updateC <- &update: into the buffer when it has room, or straight to
   a worker that waits; there is no other way out of the send *)
| loop_send_buffer s update rest :
    loop s = LSend update rest ->
    (length (updateC s) < bufSize)%nat ->
    step bufSize s
      (set_loop (LRange rest)
         (set_sent (sent s ++ [update]) (set_updateC (updateC s ++ [update]) s)))
| loop_send_worker s update rest i :
    loop s = LSend update rest ->
    updateC s = [] ->
    workers s !! i = Some WSelect ->
    step bufSize s
      (set_loop (LRange rest)
         (set_sent (sent s ++ [update]) (set_worker i (WHandle update) s)))
(* startWorker: select { case <-bot.ctx.Done(): return; case update := <-bot.updateC: ... } *)
| worker_done s i :
    workers s !! i = Some WSelect ->
    cancelled s = true ->
    step bufSize s (set_wg (Nat.pred (wg s)) (set_worker i WExit s))
| worker_receive s i update rest :
    workers s !! i = Some WSelect ->
    updateC s = update :: rest ->
    step bufSize s (set_updateC rest (set_worker i (WHandle update) s))
| worker_handled s i update :
    workers s !! i = Some (WHandle update) ->
    step bufSize s (set_worker i WSelect s)
(* the context is cancelled from outside (a parent given by WithContext) *)
| parent_cancel s :
    step bufSize s (set_cancelled true s)
(* Stop: bot.cancel(); bot.wg.Wait() *)
| stop_cancel s :
    stop s = SNotCalled ->
    step bufSize s (set_stop SWait (set_cancelled true s))
| stop_return s :
    stop s = SWait -> wg s = 0%nat ->
    step bufSize s (set_stop SReturned s).

(** The states of a run. *)
Inductive reachable (bufSize workerNum : nat) (offset0 : Z) : state -> Prop :=
| reachable_started : reachable bufSize workerNum offset0 (started workerNum offset0)
| reachable_step s s' :
    reachable bufSize workerNum offset0 s -> step bufSize s s' ->
    reachable bufSize workerNum offset0 s'.

(** Zero or more steps, each taken from a state in [P]. *)
Inductive steps_in (bufSize : nat) (P : state -> Prop) : state -> state -> Prop :=
| steps_refl s : steps_in bufSize P s s
| steps_step s s' s'' :
    P s -> step bufSize s s' -> steps_in bufSize P s' s'' ->
    steps_in bufSize P s s''.

(** Zero or more steps. *)
Definition steps (bufSize : nat) : state -> state -> Prop :=
  steps_in bufSize (fun _ => True).

(** The updates the loop still holds: the rest of the batch and the one it
    is sending. *)
Definition pending (s : state) : list Update :=
  match loop s with
  | LRange updates => updates
  | LSend update rest => update :: rest
  | _ => []
  end.

(** Every update the loop holds has an ID that is an [int] below the
    largest. *)
Definition small_ids (s : state) : Prop :=
  Forall (fun u => GoInt.in_range (UpdateID u) /\ UpdateID u < GoInt.max_int)
         (pending s).

(** The workers that have not returned. *)
Fixpoint live (ws : list worker_pc) : nat :=
  match ws with
  | [] => 0
  | WExit :: ws' => live ws'
  | _ :: ws' => S (live ws')
  end.

(** What holds of every state of a run: the counter counts the workers that
    have not returned, a called [Stop] has cancelled the context, and a
    returned [Stop] has seen the counter at zero. *)
Definition run_invariant (s : state) : Prop :=
  wg s = live (workers s)
  /\ (stop s <> SNotCalled -> cancelled s = true)
  /\ (stop s = SReturned -> wg s = 0%nat).

End Runtime.

(** [func (bot *Bot) Run() error] up to [bot.wg.Wait()]: the error of the
    command setup, or the run that has started. *)
Definition Run (bot : Bot) : M (error + Runtime.state) :=
  err <- setupCommands bot ;;
  match err with
  | Some e => ret (inl ("failed to setup commands, error: " ++ e)%string)
  | None => ret (inr (Runtime.started (Z.to_nat (workerNum bot)) (offset bot)))
  end.

(** ** Reading a trace *)

(** The event itself, wherever it happened. *)
Fixpoint unpool (e : event) : event :=
  match e with
  | EvInPool e' => unpool e'
  | _ => e
  end.

(** The calls of command handlers in a trace, on whichever goroutine. *)
Fixpoint handler_calls (t : list event) : list (Handler * Context) :=
  match t with
  | [] => []
  | e :: t' =>
    match unpool e with
    | EvHandler h ctx => (h, ctx) :: handler_calls t'
    | _ => handler_calls t'
    end
  end.

(** The calls of the updates handler in a trace. *)
Fixpoint updates_handler_calls (t : list event) : list (UpdatesHandler * Context) :=
  match t with
  | [] => []
  | e :: t' =>
    match unpool e with
    | EvUpdatesHandler h ctx => (h, ctx) :: updates_handler_calls t'
    | _ => updates_handler_calls t'
    end
  end.

(** The events of a plain-text reply to [chat] that does not panic: the
    send and, when it fails, the report of its error. *)
Definition reply_events (bot : Bot) (chat : Chat) (text : string) : list event :=
  let msg := {| ChatID := ID chat; Text := text;
                DisableWebPagePreview := true; ParseMode := "" |} in
  EvSend msg ::
  match Send (api bot) msg with
  | Some e => [EvErrHandler (errHandler bot) e]
  | None => []
  end.

(** The updates a trace touches: those of the contexts handed to handlers
    and put back. *)
Fixpoint touched (t : list event) : list Update :=
  match t with
  | [] => []
  | e :: t' =>
    match unpool e with
    | EvHandler _ ctx | EvUpdatesHandler _ ctx | EvPut ctx => update ctx :: touched t'
    | _ => touched t'
    end
  end.

(** ** More of context.go, of the registry and of traces *)

(** [func WithEnableWebPagePreview() MessageConfigOption] *)
Definition WithEnableWebPagePreview : MessageConfigOption :=
  fun c => {| ChatID := ChatID c; Text := Text c;
              DisableWebPagePreview := false; ParseMode := ParseMode c |}.

(** [func WithChatId(chatId int64) MessageConfigOption] *)
Definition WithChatId (chatId : Z) : MessageConfigOption :=
  fun c => {| ChatID := chatId; Text := Text c;
              DisableWebPagePreview := DisableWebPagePreview c;
              ParseMode := ParseMode c |}.

(** The message [reply] builds before it applies the options:
    [tgbotapi.NewMessage] with the web page preview disabled. *)
Definition plain_message (chat : Chat) (text : string) : MessageConfig :=
  {| ChatID := ID chat; Text := text;
     DisableWebPagePreview := true; ParseMode := "" |}.

(** The options of a reply, applied in their order. *)
Definition apply_opts (opts : list MessageConfigOption) (msg : MessageConfig)
  : MessageConfig :=
  fold_left (fun m (o : MessageConfigOption) => o m) opts msg.

(** Calls of [AddCommand], one after the other. *)
Definition AddCommands (cmds : list Command) (bot : Bot) : Bot :=
  fold_left (fun b cmd => AddCommand cmd b) cmds bot.

(** The entry of the command menu that [setupCommands] makes of a
    command. *)
Definition menu_entry (cmd : Command) : BotCommand :=
  {| BotCommand_Command := Name cmd; BotCommand_Description := Description cmd |}.

(** The options of a bot, applied in their order, as [NewBot] does. *)
Definition apply_options (opts : list Option) (bot : Bot) : Bot :=
  fold_left (fun b (o : Option) => o b) opts bot.


(** How often a trace puts a context back, on whichever goroutine. *)
Fixpoint puts (t : list event) : nat :=
  match t with
  | [] => 0%nat
  | e :: t' =>
    match unpool e with
    | EvPut _ => S (puts t')
    | _ => puts t'
    end
  end.

(** The errors a trace reports to the error handler, in order. *)
Fixpoint reported (t : list event) : list error :=
  match t with
  | [] => []
  | e :: t' =>
    match unpool e with
    | EvErrHandler _ err => err :: reported t'
    | _ => reported t'
    end
  end.


(** The bot has a pool and the pool takes what is submitted. *)
Definition pool_takes (bot : Bot) : bool :=
  match workerPool bot with
  | Some p =>
    match Submit_error p with
    | None => true
    | Some _ => false
    end
  | None => false
  end.

(** An event of the recovery from a panic: a call of the panic handler, a
    send, a report to the error handler. *)
Definition is_recovery_event (e : event) : bool :=
  match e with
  | EvPanicHandler _ _ | EvSend _ | EvErrHandler _ _ => true
  | _ => false
  end.

(** What [handleUpdate] does with the pool before the inline execution: the
    submission and then the report of its refusal or the run on the pool. *)
Definition submission_events (bot : Bot) (ctx : Context) : list event :=
  match workerPool bot with
  | None => []
  | Some p =>
    EvSubmit ::
    match Submit_error p with
    | Some e => [EvErrHandler (errHandler bot) e]
    | None => map EvInPool (trace (executeHandler bot ctx))
    end
  end.

(** The watermark after a batch, in closed form: the offset, or one more
    than the largest ID of the batch when that is larger. *)
Definition next_offset (offset : Z) (updates : list Update) : Z :=
  fold_right (fun u w => Z.max (UpdateID u + 1) w) offset updates.

(** The IDs of a list of updates are ints below the largest. *)
Definition small_batch (updates : list Update) : Prop :=
  Forall (fun u => GoInt.in_range (UpdateID u) /\ UpdateID u < GoInt.max_int) updates.

(** The IDs of a list of updates increase strictly. *)
Definition ids_increase (updates : list Update) : Prop :=
  StronglySorted (fun a b => UpdateID a < UpdateID b) updates.


(** ** Sample inputs *)

Module Sample.

(** A service that accepts everything. *)
Definition api_ok : BotAPI :=
  {| Send := fun _ => None; SetMyCommands := fun _ => None |}.

(** A service that refuses every message. *)
Definition api_down : BotAPI :=
  {| Send := fun _ => Some "Bad Gateway"; SetMyCommands := fun _ => None |}.

Definition command_message (name args : string) : Message :=
  {| IsCommand := true; MessageCommand := name; CommandArguments := args |}.

Definition text_message : Message :=
  {| IsCommand := false; MessageCommand := ""; CommandArguments := "" |}.

(** An update that carries a message of chat 7. *)
Definition message_update (id : Z) (m : Message) : Update :=
  {| UpdateID := id; Update_Message := Some m; Update_EditedMessage := None;
     Update_ChannelPost := None; Update_EditedChannelPost := None;
     FromChat := Some {| ID := 7 |} |}.

(** An update of another kind (an inline query, a poll): no message, no
    chat. *)
Definition bare_update (id : Z) : Update :=
  {| UpdateID := id; Update_Message := None; Update_EditedMessage := None;
     Update_ChannelPost := None; Update_EditedChannelPost := None;
     FromChat := None |}.

(** An update whose only message is an edited channel post. *)
Definition edited_post_update (id : Z) (m : Message) : Update :=
  {| UpdateID := id; Update_Message := None; Update_EditedMessage := None;
     Update_ChannelPost := None; Update_EditedChannelPost := Some m;
     FromChat := Some {| ID := 7 |} |}.

Definition h_ok : Handler := fun _ => Returns None.
Definition h_fails : Handler := fun _ => Returns (Some "no such user").
Definition h_boom : Handler := fun _ => Panics (Some "boom").

Definition pool_open : Pool := {| Submit_error := None |}.
Definition pool_closed : Pool := {| Submit_error := Some "this pool has been closed" |}.

Definition ping : Command :=
  {| Name := "ping"; Description := "answers pong"; Hide := false;
     Command_Handler := Some h_ok |}.

Definition crash : Command :=
  {| Name := "crash"; Description := "always panics"; Hide := true;
     Command_Handler := Some h_boom |}.

(** A run of one worker whose loop has fetched [updates]. *)
Definition fetched (updates : list Update) : Runtime.state :=
  Runtime.set_loop (Runtime.LRange updates) (Runtime.started 1 0).

Definition u5 : Update := message_update 5 text_message.
Definition u6 : Update := message_update 6 text_message.
Definition u_max : Update := message_update GoInt.max_int text_message.

(** A run with a buffer of one update whose loop has sent [u5] and stands
    at the send of [u6]. *)
Definition at_second_send (c : bool) (ws : list Runtime.worker_pc) (n : nat)
  (st : Runtime.stop_pc) : Runtime.state :=
  {| Runtime.cancelled := c; Runtime.offset := 7;
     Runtime.updateC := [u5]; Runtime.sent := [u5];
     Runtime.loop := Runtime.LSend u6 [];
     Runtime.workers := ws; Runtime.wg := n; Runtime.stop := st |}.

End Sample.

(** Case analysis on a step of the run. *)
Ltac step_cases H :=
  inversion H; subst; clear H; simpl in *.

(** * Properties *)

(** ** The assignments *)

Lemma set_get (b : Bot) :
  (forall v, workerNum (set_workerNum v b) = v)
  /\ (forall v, workerPool (set_workerPool v b) = v)
  /\ (forall v, panicHandler (set_panicHandler v b) = v)
  /\ (forall v, errHandler (set_errHandler v b) = v)
  /\ (forall v, undefinedCommandHandler (set_undefinedCommandHandler v b) = v)
  /\ (forall v, updatesHandler (set_updatesHandler v b) = v)
  /\ (forall v, autoSetupCommands (set_autoSetupCommands v b) = v)
  /\ (forall v, bufSize (set_bufSize v b) = v)
  /\ (forall v, limit (set_limit v b) = v)
  /\ (forall v, cmdHandlers (set_cmdHandlers v b) = v)
  /\ (forall v, commands (set_commands v b) = v).
Proof. destruct b. repeat split. Qed.

(** An assignment changes its field only. *)
Example set_workerNum_frame :
  set_workerNum 2 (NewBot_literal 4 Sample.api_ok)
  = NewBot_literal 2 Sample.api_ok
  /\ set_panicHandler None (set_workerPool (Some Sample.pool_open) (NewBot_literal 4 Sample.api_ok))
    = {| api := Sample.api_ok; commands := []; cmdHandlers := ∅; timeout := 0;
         undefinedCommandHandler := None; errHandler := ErrHandlerNop;
         updatesHandler := None; panicHandler := None; workerNum := 4;
         workerPool := Some Sample.pool_open; bufSize := 0; updateTimeout := 60;
         limit := 100; offset := 0; allowedUpdates := []; autoSetupCommands := false |}.
Proof. split; reflexivity. Qed.

(** ** The context accessors *)

Lemma first_non_nil_None {A} (ps : list (option A)) :
  Ctx.first_non_nil ps = None <-> Forall (fun p => p = None) ps.
Proof.
  induction ps as [|[a|] ps IH]; simpl.
  - split; [constructor | reflexivity].
  - split; [discriminate | intros H; inversion H; discriminate].
  - rewrite IH. split; [intros H; constructor; auto | intros H; inversion H; auto].
Qed.

(** C9: [Message] returns the first non-nil of the update's [Message],
    [EditedMessage], [ChannelPost] and [EditedChannelPost], in that order,
    and nil exactly when all four are nil; whenever [Message] is nil,
    [Command] and [CommandArgs] return the empty string. *)
Theorem Message_first_non_nil (ctx : Context) :
  Ctx.Message ctx = Ctx.first_non_nil (Ctx.message_fields (update ctx))
  /\ (Ctx.Message ctx = None <->
      Forall (fun p => p = None) (Ctx.message_fields (update ctx)))
  /\ (Ctx.Message ctx = None ->
      Ctx.Command ctx = "" /\ Ctx.CommandArgs ctx = "").
Proof.
  assert (E : Ctx.Message ctx = Ctx.first_non_nil (Ctx.message_fields (update ctx))).
  { unfold Ctx.Message, Ctx.message_fields. simpl.
    destruct (Update_Message (update ctx)); [reflexivity|].
    destruct (Update_EditedMessage (update ctx)); [reflexivity|].
    destruct (Update_ChannelPost (update ctx)); [reflexivity|].
    destruct (Update_EditedChannelPost (update ctx)); reflexivity. }
  split; [exact E|]. split.
  - rewrite E. apply first_non_nil_None.
  - intros H. unfold Ctx.Command, Ctx.CommandArgs. rewrite H. split; reflexivity.
Qed.

Lemma Message_first_non_nil_witness :
  Ctx.Command (allocateContext (NewBot 4 Sample.api_ok []) (Sample.bare_update 1)) = ""
  /\ Ctx.CommandArgs (allocateContext (NewBot 4 Sample.api_ok []) (Sample.bare_update 1)) = "".
Proof.
  apply (Message_first_non_nil
           (allocateContext (NewBot 4 Sample.api_ok []) (Sample.bare_update 1))).
  reflexivity.
Defined.

Example Message_edited_channel_post :
  Ctx.Message (allocateContext (NewBot 4 Sample.api_ok [])
                 (Sample.edited_post_update 1 (Sample.command_message "ping" "now")))
  = Some (Sample.command_message "ping" "now").
Proof. reflexivity. Qed.

(** ** The monad *)

Lemma bind_trace_normal {A B} (m : M A) (f : A -> M B) (a : A) :
  outcome_of m = Normal a ->
  trace (bind m f) = trace m ++ trace (f a)
  /\ outcome_of (bind m f) = outcome_of (f a).
Proof.
  destruct m as [t r]. simpl. intros ->. simpl.
  destruct (f a) as [t' r']. split; reflexivity.
Qed.


Lemma M_eta {A} (m : M A) : m = (trace m, outcome_of m).
Proof. destruct m; reflexivity. Qed.

(** The submission and the report of its failure never panic. *)
Lemma submission_normal (bot : Bot) (ctx : Context) :
  outcome_of
    (match workerPool bot with
     | Some p =>
       err <- Submit p (executeHandler bot ctx) ;;
       match err with
       | Some e => report bot e
       | None => ret tt
       end
     | None => ret tt
     end) = Normal tt.
Proof.
  destruct (workerPool bot) as [p|]; [|reflexivity].
  unfold Submit. destruct (Submit_error p); reflexivity.
Qed.

Lemma handleUpdate_body_outcome (bot : Bot) (ctx : Context) :
  outcome_of (handleUpdate_body bot ctx) = outcome_of (executeHandler bot ctx).
Proof.
  unfold handleUpdate_body.
  exact (proj2 (bind_trace_normal _ _ tt (submission_normal bot ctx))).
Qed.

(** ** The options *)

(** C10: the undefined-command-handler option and the error-handler option
    leave the bot as it is when their argument is nil, the panic-handler
    option sets the panic handler to nil; with a nil panic handler and a
    worker pool, [handleUpdate] installs no recovery: it is its body, and a
    panic of the routed handler leaves it. *)
Theorem nil_handler_options (b : Bot) (p : Pool) (update : Update) :
  WithUndefinedCmdHandler None b = b
  /\ WithErrorHandler None b = b
  /\ panicHandler (WithPanicHandler None b) = None
  /\ (workerPool b = Some p -> panicHandler b = None ->
      handleUpdate b update = handleUpdate_body b (allocateContext b update)
      /\ outcome_of (handleUpdate b update)
         = outcome_of (executeHandler b (allocateContext b update))).
Proof.
  repeat split.
  - destruct b; reflexivity.
  - unfold handleUpdate, installs_recovery. rewrite H, H0. reflexivity.
  - unfold handleUpdate, installs_recovery. rewrite H, H0.
    apply handleUpdate_body_outcome.
Qed.

Lemma nil_handler_options_witness :
  let b := NewBot 4 Sample.api_ok
             [WithWorkerPool (Some Sample.pool_open); WithPanicHandler None;
              WithUpdatesHandler (Some (fun _ => Panics (Some "boom")))] in
  handleUpdate b (Sample.bare_update 1)
  = handleUpdate_body b (allocateContext b (Sample.bare_update 1))
  /\ outcome_of (handleUpdate b (Sample.bare_update 1)) = Panic (Some "boom").
Proof.
  intros b.
  destruct (nil_handler_options b Sample.pool_open (Sample.bare_update 1))
    as (_ & _ & _ & H).
  destruct (H eq_refl eq_refl) as [H1 H2].
  split; [exact H1 | rewrite H2; reflexivity].
Defined.

Example defaults_survive_nil_options :
  let b := NewBot 4 Sample.api_ok [WithUndefinedCmdHandler None; WithErrorHandler None] in
  undefinedCommandHandler b = None /\ errHandler b = ErrHandlerNop.
Proof. split; reflexivity. Qed.

(** C5, as the code has it: for every positive [n], below the default worker
    count or not, the worker-count option sets the worker count of a new bot
    to [n]; the guard tests the current worker count, which the default
    makes positive. *)
Theorem WithWorkerNum_sets (gomaxprocs : Z) (api : BotAPI) (n : Z) :
  0 < gomaxprocs -> 0 < n ->
  workerNum (NewBot gomaxprocs api []) = gomaxprocs
  /\ workerNum (NewBot gomaxprocs api [WithWorkerNum n]) = n.
Proof.
  intros Hg Hn. split; [reflexivity|].
  unfold NewBot. simpl. unfold WithWorkerNum. simpl.
  destruct (0 <? gomaxprocs) eqn:E; [reflexivity | apply Z.ltb_ge in E; lia].
Qed.

Lemma WithWorkerNum_sets_witness :
  workerNum (NewBot 4 Sample.api_ok []) = 4
  /\ workerNum (NewBot 4 Sample.api_ok [WithWorkerNum 2]) = 2.
Proof. apply WithWorkerNum_sets; lia. Defined.

(** C5 fails as stated: with a default of 4 workers the option lowers the
    count to 2. *)
Lemma WithWorkerNum_lowers :
  2 < workerNum (NewBot 4 Sample.api_ok [])
  /\ workerNum (NewBot 4 Sample.api_ok [WithWorkerNum 2])
     <> workerNum (NewBot 4 Sample.api_ok []).
Proof. split; [reflexivity | discriminate]. Qed.

(** The option is without effect only on a bot whose worker count is not
    positive. *)
Lemma WithWorkerNum_guard (b : Bot) (n : Z) :
  workerNum (WithWorkerNum n b) = if 0 <? workerNum b then n else workerNum b.
Proof.
  unfold WithWorkerNum. destruct (0 <? workerNum b); [destruct b|]; reflexivity.
Qed.

(** ** The command menu *)

(** C6 at its failing input: with the flag switched off, [Run] still sets the
    command menu first, whatever the bot; and a bot built without the option
    has the flag off. *)
Theorem Run_sets_commands_with_flag_off (b : Bot) :
  let b' := WithAutoSetupCommands false b in
  autoSetupCommands b' = false
  /\ (exists cmds, trace (Run b') = [EvSetMyCommands cmds])
  /\ autoSetupCommands (NewBot 4 (api b) []) = false.
Proof.
  simpl. split; [destruct b; reflexivity|]. split; [|reflexivity].
  eexists. unfold Run, setupCommands. simpl.
  destruct (SetMyCommands _ _); reflexivity.
Qed.

(** ** Command routing *)

Lemma AddCommand_registers (cmd : Command) (bot : Bot) :
  cmdHandlers (AddCommand cmd bot) !! Name cmd = Some (Command_Handler cmd)
  /\ (forall name, name <> Name cmd ->
      cmdHandlers (AddCommand cmd bot) !! name = cmdHandlers bot !! name)
  /\ commands (AddCommand cmd bot) = commands bot ++ [cmd].
Proof.
  destruct bot; unfold AddCommand; simpl. repeat split.
  - apply lookup_insert_eq.
  - intros name Hne. apply lookup_insert_ne. congruence.
Qed.

Lemma handler_calls_app (t1 t2 : list event) :
  handler_calls (t1 ++ t2) = handler_calls t1 ++ handler_calls t2.
Proof.
  induction t1 as [|e t1 IH]; simpl; [reflexivity|].
  destruct (unpool e); simpl; rewrite IH; reflexivity.
Qed.




(** ** The worker pool *)

(** With a pool that takes the task, the execution of the update happens
    twice: on the pool and then inline. *)
Lemma handleUpdate_body_submitted (bot : Bot) (p : Pool) (ctx : Context) :
  workerPool bot = Some p -> Submit_error p = None ->
  trace (handleUpdate_body bot ctx)
  = EvSubmit :: map EvInPool (trace (executeHandler bot ctx))
    ++ trace (executeHandler bot ctx).
Proof.
  intros Hp Hs. unfold handleUpdate_body, Submit. rewrite Hp, Hs.
  destruct (executeHandler bot ctx) as [t r]. simpl.
  rewrite app_nil_r. reflexivity.
Qed.

(** With a pool that refuses the task, the error is reported and the
    execution happens once, inline. *)
Lemma handleUpdate_body_refused (bot : Bot) (p : Pool) (err : error) (ctx : Context) :
  workerPool bot = Some p -> Submit_error p = Some err ->
  trace (handleUpdate_body bot ctx)
  = EvSubmit :: EvErrHandler (errHandler bot) err :: trace (executeHandler bot ctx).
Proof.
  intros Hp Hs. unfold handleUpdate_body, Submit. rewrite Hp, Hs.
  destruct (executeHandler bot ctx) as [t r]. reflexivity.
Qed.

(** Without a pool the execution happens once, inline. *)
Lemma handleUpdate_body_inline (bot : Bot) (ctx : Context) :
  workerPool bot = None ->
  trace (handleUpdate_body bot ctx) = trace (executeHandler bot ctx).
Proof.
  intros Hp. unfold handleUpdate_body. rewrite Hp.
  destruct (executeHandler bot ctx) as [t r]. reflexivity.
Qed.

(** C1 at its failing input: a bot with an open pool and the command "ping"
    handles the update "/ping" by submitting it and then executing it inline
    as well; the handler runs twice. *)
Theorem handleUpdate_executes_twice :
  let bot := AddCommand Sample.ping
               (NewBot 4 Sample.api_ok [WithWorkerPool (Some Sample.pool_open)]) in
  let u := Sample.message_update 1 (Sample.command_message "ping" "") in
  let ctx := allocateContext bot u in
  trace (handleUpdate bot u)
  = [EvSubmit; EvInPool (EvHandler Sample.h_ok ctx); EvInPool (EvPut ctx);
     EvHandler Sample.h_ok ctx; EvPut ctx]
  /\ handler_calls (trace (handleUpdate bot u))
     = [(Sample.h_ok, ctx); (Sample.h_ok, ctx)].
Proof. split; vm_compute; reflexivity. Qed.

(** ** Routing at work *)

Example refused_submission_executes_once :
  let bot := AddCommand Sample.ping
               (NewBot 4 Sample.api_ok [WithWorkerPool (Some Sample.pool_closed)]) in
  let u := Sample.message_update 1 (Sample.command_message "ping" "") in
  trace (handleUpdate bot u)
  = [EvSubmit; EvErrHandler ErrHandlerNop "this pool has been closed";
     EvHandler Sample.h_ok (allocateContext bot u); EvPut (allocateContext bot u)].
Proof. vm_compute. reflexivity. Qed.

Example handler_error_reported :
  let lookup := {| Name := "whois"; Description := "looks a user up"; Hide := false;
                   Command_Handler := Some Sample.h_fails |} in
  let bot := AddCommand lookup
               (NewBot 4 Sample.api_ok [WithErrorHandler (Some (ErrHandlerUser "log"))]) in
  let u := Sample.message_update 1 (Sample.command_message "whois" "bob") in
  trace (handleUpdate bot u)
  = [EvHandler Sample.h_fails (allocateContext bot u);
     EvErrHandler (ErrHandlerUser "log") "no such user";
     EvPut (allocateContext bot u)]
  /\ Ctx.CommandArgs (allocateContext bot u) = "bob".
Proof. split; vm_compute; reflexivity. Qed.

Example updates_handler_routed :
  let h : UpdatesHandler := fun _ => Returns tt in
  let u := Sample.message_update 1 Sample.text_message in
  let bot := NewBot 4 Sample.api_ok [WithUpdatesHandler (Some h)] in
  let quiet := NewBot 4 Sample.api_ok [] in
  updates_handler_calls (trace (handleUpdate bot u)) = [(h, allocateContext bot u)]
  /\ trace (handleUpdate quiet u) = [EvPut (allocateContext quiet u)].
Proof. split; vm_compute; reflexivity. Qed.

Example menu_of_visible_commands :
  let bot := AddCommand Sample.crash (AddCommand Sample.ping (NewBot 4 Sample.api_ok [])) in
  map Command_String (Commands bot) = ["/ping - answers pong"]
  /\ trace (Run bot)
     = [EvSetMyCommands [{| BotCommand_Command := "ping";
                            BotCommand_Description := "answers pong" |}]].
Proof. split; vm_compute; reflexivity. Qed.

(** Two batches of one update each, IDs 1 and 2: both are sent and the
    watermark ends at 3; the first batch delivered again sends nothing. *)
Example two_batches :
  let u1 := Sample.message_update 1 (Sample.command_message "ping" "") in
  let u2 := Sample.message_update 2 (Sample.command_message "ping" "") in
  let '(w1, c1) := rangeUpdates 0 [] [u1] in
  let '(w2, c2) := rangeUpdates w1 c1 [u2] in
  (w2, c2) = (3, [u1; u2])
  /\ rangeUpdates w2 c2 [u1] = (w2, c2).
Proof. split; vm_compute; reflexivity. Qed.

(** ** Panics *)

Lemma defer_recover_normal (body : M unit) (handler : interface -> M unit) :
  outcome_of body = Normal tt -> defer_recover body handler = body.
Proof. destruct body as [t r]. simpl. intros ->. reflexivity. Qed.

Lemma defer_recover_panic (body : M unit) (handler : interface -> M unit) (s : string) :
  outcome_of body = Panic (Some s) ->
  trace (defer_recover body handler) = trace body ++ trace (handler (Some s))
  /\ outcome_of (defer_recover body handler) = outcome_of (handler (Some s)).
Proof.
  destruct body as [t r]. simpl. intros ->. simpl.
  destruct (handler (Some s)) as [t' r']. split; reflexivity.
Qed.

(** What the deferred function does with a non-nil value when the update
    has a chat: it ends normally, after these events. *)
Lemma recovered_replies (bot : Bot) (ctx : Context) (ph : PanicHandler)
  (s : string) (chat : Chat) :
  panicHandler bot = Some ph ->
  FromChat (update ctx) = Some chat ->
  Context_BotAPI ctx = api bot ->
  recovered bot ctx (Some s)
  = (match ph with
     | PanicHandlerDefault =>
       EvErrHandler (errHandler bot) ("tgbot panic: " ++ s)%string
       :: reply_events bot chat "oops! Service is temporarily unavailable"
     | PanicHandlerUser f =>
       EvPanicHandler f (Some s)
       :: (if String.eqb (f (Some s)) "" then []
           else reply_events bot chat (f (Some s)))
     end, Normal tt).
Proof.
  intros Hph Hchat Hapi.
  unfold recovered, call_panicHandler, ReplyText, reply, reply_events, report.
  rewrite Hph, Hchat, Hapi. destruct ph as [|f]; simpl.
  - destruct (Send _ _); reflexivity.
  - destruct (String.eqb (f (Some s)) ""); [reflexivity|].
    simpl. destruct (Send _ _); reflexivity.
Qed.

Lemma startWorker_next (bot : Bot) (update : Update) (rest : list Update) :
  outcome_of (handleUpdate bot update) = Normal tt ->
  trace (startWorker bot (update :: rest))
  = trace (handleUpdate bot update) ++ trace (startWorker bot rest)
  /\ outcome_of (startWorker bot (update :: rest)) = outcome_of (startWorker bot rest).
Proof.
  intros H. simpl.
  exact (bind_trace_normal _ (fun _ => startWorker bot rest) tt H).
Qed.

(** C3, as the code has it: when a panic handler is configured and the
    update has a chat, a panic with a non-nil value in the inline execution
    is recovered in [handleUpdate]: the panic handler turns the value into a
    message (the default one reports the panic to the error handler, a
    user's is called in its place), a non-empty message is sent as a reply
    whose failure is reported and goes no further, [handleUpdate] returns
    and the worker handles the next update. *)
Theorem panic_recovered (bot : Bot) (u : Update) (ph : PanicHandler)
  (s : string) (chat : Chat) (rest : list Update) :
  panicHandler bot = Some ph ->
  FromChat u = Some chat ->
  outcome_of (executeHandler bot (allocateContext bot u)) = Panic (Some s) ->
  outcome_of (handleUpdate bot u) = Normal tt
  /\ trace (handleUpdate bot u)
     = trace (handleUpdate_body bot (allocateContext bot u))
       ++ match ph with
          | PanicHandlerDefault =>
            EvErrHandler (errHandler bot) ("tgbot panic: " ++ s)%string
            :: reply_events bot chat "oops! Service is temporarily unavailable"
          | PanicHandlerUser f =>
            EvPanicHandler f (Some s)
            :: (if String.eqb (f (Some s)) "" then []
                else reply_events bot chat (f (Some s)))
          end
  /\ trace (startWorker bot (u :: rest))
     = trace (handleUpdate bot u) ++ trace (startWorker bot rest)
  /\ outcome_of (startWorker bot (u :: rest)) = outcome_of (startWorker bot rest).
Proof.
  intros Hph Hchat Hpanic.
  assert (Hrec : installs_recovery bot = true).
  { unfold installs_recovery. rewrite Hph. destruct (workerPool bot); reflexivity. }
  assert (Hbody : outcome_of (handleUpdate_body bot (allocateContext bot u))
                  = Panic (Some s)).
  { rewrite handleUpdate_body_outcome. exact Hpanic. }
  destruct (defer_recover_panic _ (recovered bot (allocateContext bot u)) s Hbody)
    as [Ht Ho].
  rewrite (recovered_replies bot (allocateContext bot u) ph s chat Hph Hchat eq_refl)
    in Ht, Ho.
  assert (Hout : outcome_of (handleUpdate bot u) = Normal tt).
  { unfold handleUpdate. rewrite Hrec. exact Ho. }
  split; [exact Hout|]. split.
  - unfold handleUpdate. rewrite Hrec. exact Ht.
  - apply startWorker_next, Hout.
Qed.

Lemma panic_recovered_witness :
  let bot := AddCommand Sample.ping
               (AddCommand Sample.crash (NewBot 4 Sample.api_down [])) in
  let u := Sample.message_update 1 (Sample.command_message "crash" "") in
  let next := Sample.message_update 2 (Sample.command_message "ping" "") in
  outcome_of (startWorker bot [u; next]) = Normal tt
  /\ trace (startWorker bot [u; next])
     = [EvHandler Sample.h_boom (allocateContext bot u);
        EvErrHandler ErrHandlerNop "tgbot panic: boom";
        EvSend {| ChatID := 7; Text := "oops! Service is temporarily unavailable";
                  DisableWebPagePreview := true; ParseMode := "" |};
        EvErrHandler ErrHandlerNop "Bad Gateway";
        EvHandler Sample.h_ok (allocateContext bot next);
        EvPut (allocateContext bot next)].
Proof.
  intros bot u next.
  destruct (panic_recovered bot u PanicHandlerDefault "boom" {| ID := 7 |} [next])
    as (_ & _ & Ht & Ho); [reflexivity | reflexivity | vm_compute; reflexivity |].
  split.
  - rewrite Ho. vm_compute. reflexivity.
  - rewrite Ht. vm_compute. reflexivity.
Defined.

(** C3 fails as stated.  With the panic handler set to nil and a worker
    pool, the panic of a handler leaves [handleUpdate] and ends the worker,
    which never touches the next update; and a user's panic handler is
    called in place of the report to the error handler. *)
Lemma panic_not_recovered :
  (let bot := AddCommand Sample.ping
                (AddCommand Sample.crash
                   (NewBot 4 Sample.api_ok
                      [WithWorkerPool (Some Sample.pool_open); WithPanicHandler None])) in
   let u := Sample.message_update 1 (Sample.command_message "crash" "") in
   let next := Sample.message_update 2 (Sample.command_message "ping" "") in
   outcome_of (handleUpdate bot u) = Panic (Some "boom")
   /\ outcome_of (startWorker bot [u; next]) = Panic (Some "boom")
   /\ touched (trace (startWorker bot [u; next])) = [u; u])
  /\ (let f : interface -> string := fun _ => "sorry" in
      let bot := AddCommand Sample.crash
                   (NewBot 4 Sample.api_ok [WithPanicHandler (Some (PanicHandlerUser f))]) in
      let u := Sample.message_update 1 (Sample.command_message "crash" "") in
      trace (handleUpdate bot u)
      = [EvHandler Sample.h_boom (allocateContext bot u);
         EvPanicHandler f (Some "boom");
         EvSend {| ChatID := 7; Text := "sorry";
                   DisableWebPagePreview := true; ParseMode := "" |}]).
Proof. repeat split; vm_compute; reflexivity. Qed.

(** ** The acquisition loop on a batch *)

Lemma rangeUpdates_snoc (offset : Z) (updateC before : list Update) (update : Update) :
  rangeUpdates offset updateC (before ++ [update])
  = range_body (rangeUpdates offset updateC before) update.
Proof. unfold rangeUpdates. rewrite fold_left_app. reflexivity. Qed.

Lemma rangeUpdates_sent (updates : list Update) (offset : Z) (updateC : list Update) :
  exists kept,
    snd (rangeUpdates offset updateC updates) = updateC ++ kept
    /\ kept `sublist_of` updates.
Proof.
  induction updates as [|update before IH] using rev_ind.
  - exists []. split; [simpl; rewrite app_nil_r; reflexivity | constructor].
  - destruct IH as (kept & Hsent & Hsub).
    rewrite rangeUpdates_snoc.
    destruct (rangeUpdates offset updateC before) as [w sent]. simpl in *.
    destruct (UpdateID update >=? w); simpl.
    + exists (kept ++ [update]). split.
      * rewrite Hsent, app_assoc. reflexivity.
      * apply sublist_app; [exact Hsub | reflexivity].
    + exists kept. split; [exact Hsent | apply sublist_inserts_r, Hsub].
Qed.

Lemma GoInt_add_1 (z : Z) :
  GoInt.in_range z -> z < GoInt.max_int -> GoInt.add z 1 = z + 1.
Proof.
  unfold GoInt.in_range, GoInt.min_int, GoInt.max_int, GoInt.add, GoInt.wrap.
  intros [Hlo Hhi] Hmax.
  rewrite Z.mod_small by lia. lia.
Qed.

(** ** What a worker touches *)













(** * Further properties of the package *)

(** ** The construction of a bot *)


Lemma last_default (ns : list Z) (n d d' : Z) :
  List.last (n :: ns) d = List.last (n :: ns) d'.
Proof.
  revert n. induction ns as [|m ns IH]; intros n; [reflexivity|].
  change (List.last (m :: ns) d = List.last (m :: ns) d'). apply IH.
Qed.

Lemma apply_options_WithWorkerNum (ns : list Z) (b : Bot) :
  workerNum (apply_options (map WithWorkerNum ns) b)
  = if 0 <? workerNum b
    then match List.find (fun n => n <=? 0) ns with
         | Some n => n
         | None => List.last ns (workerNum b)
         end
    else workerNum b.
Proof.
  revert b. induction ns as [|n ns IH]; intros b.
  - simpl. destruct (0 <? workerNum b); reflexivity.
  - change (apply_options (map WithWorkerNum (n :: ns)) b)
      with (apply_options (map WithWorkerNum ns) (WithWorkerNum n b)).
    rewrite IH, WithWorkerNum_guard.
    destruct (0 <? workerNum b) eqn:Hb; [|rewrite Hb; reflexivity].
    simpl List.find.
    destruct (n <=? 0) eqn:Hn.
    + apply Z.leb_le in Hn.
      destruct (0 <? n) eqn:Hn'; [apply Z.ltb_lt in Hn'; lia | reflexivity].
    + apply Z.leb_gt in Hn. apply Z.ltb_lt in Hn. rewrite Hn.
      destruct (List.find _ ns); [reflexivity|].
      destruct ns as [|m ns]; [reflexivity|].
      change (List.last (m :: ns) n = List.last (m :: ns) (workerNum b)).
      apply last_default.
Qed.

(** X2: a chain of worker-count options on a new bot ends at the first
    argument that is not positive, which no later one changes, and at the
    last argument when all are positive. *)
Theorem WithWorkerNum_chain (gomaxprocs : Z) (api : BotAPI) (ns : list Z) :
  0 < gomaxprocs ->
  workerNum (NewBot gomaxprocs api (map WithWorkerNum ns))
  = match List.find (fun n => n <=? 0) ns with
    | Some n => n
    | None => List.last ns gomaxprocs
    end.
Proof.
  intros Hg. unfold NewBot.
  fold (apply_options (map WithWorkerNum ns) (NewBot_literal gomaxprocs api)).
  assert (E : forall b, workerNum (if bufSize b =? 0 then set_bufSize (limit b) b else b)
                        = workerNum b).
  { intros b. destruct (bufSize b =? 0); [destruct b|]; reflexivity. }
  rewrite E, apply_options_WithWorkerNum. simpl workerNum.
  apply Z.ltb_lt in Hg. rewrite Hg. reflexivity.
Qed.

Lemma WithWorkerNum_chain_witness :
  workerNum (NewBot 4 Sample.api_ok (map WithWorkerNum [2; 0; 8])) = 0
  /\ workerNum (NewBot 4 Sample.api_ok (map WithWorkerNum [2; 8])) = 8.
Proof.
  split.
  - rewrite (WithWorkerNum_chain 4 Sample.api_ok [2; 0; 8]); [reflexivity | lia].
  - rewrite (WithWorkerNum_chain 4 Sample.api_ok [2; 8]); [reflexivity | lia].
Defined.

(** ** The registry *)

Lemma AddCommands_cons (cmd : Command) (cmds : list Command) (bot : Bot) :
  AddCommands (cmd :: cmds) bot = AddCommands cmds (AddCommand cmd bot).
Proof. reflexivity. Qed.

Lemma AddCommands_frame (cmds : list Command) (bot : Bot) :
  commands (AddCommands cmds bot) = commands bot ++ cmds
  /\ api (AddCommands cmds bot) = api bot
  /\ errHandler (AddCommands cmds bot) = errHandler bot
  /\ undefinedCommandHandler (AddCommands cmds bot) = undefinedCommandHandler bot.
Proof.
  revert bot. induction cmds as [|cmd cmds IH]; intros bot.
  - simpl. rewrite app_nil_r. repeat split.
  - rewrite AddCommands_cons. destruct (IH (AddCommand cmd bot)) as (Hc & Ha & He & Hu).
    rewrite Hc, Ha, He, Hu. destruct bot; simpl. rewrite <- app_assoc. repeat split.
Qed.

(** X3: after any calls of [AddCommand] the handler found under a name is
    that of the last command registered with that name, and what was
    there before when no command has that name; the list of commands has
    grown by all of them, in order. *)
Theorem AddCommands_lookup (cmds : list Command) (bot : Bot) (name : string) :
  cmdHandlers (AddCommands cmds bot) !! name
  = match last (filter (fun cmd => Name cmd = name) cmds) with
    | Some cmd => Some (Command_Handler cmd)
    | None => cmdHandlers bot !! name
    end
  /\ commands (AddCommands cmds bot) = commands bot ++ cmds.
Proof.
  split; [|apply AddCommands_frame].
  revert bot. induction cmds as [|cmd cmds IH]; intros bot; [reflexivity|].
  rewrite AddCommands_cons, IH, filter_cons.
  destruct (AddCommand_registers cmd bot) as (Hsame & Hother & _).
  destruct (decide (Name cmd = name)) as [<-|Hne].
  - rewrite last_cons. destruct (last (filter _ cmds)); [reflexivity | exact Hsame].
  - destruct (last (filter _ cmds)); [reflexivity|]. apply Hother. congruence.
Qed.

(** X4: the command menu is made of the commands that are not hidden, in
    the order of their registration: registering commands appends the
    visible ones to it, and [setupCommands] requests exactly their names and
    descriptions and returns what the service answers. *)
Theorem menu_of_registered (cmds : list Command) (bot : Bot) :
  Commands (AddCommands cmds bot)
  = Commands bot ++ filter (fun cmd => Hide cmd = false) cmds
  /\ Forall (fun cmd => Hide cmd = false) (Commands (AddCommands cmds bot))
  /\ setupCommands (AddCommands cmds bot)
     = ([EvSetMyCommands
           (map menu_entry (Commands bot ++ filter (fun cmd => Hide cmd = false) cmds))],
        Normal (SetMyCommands (api bot)
                  (map menu_entry
                     (Commands bot ++ filter (fun cmd => Hide cmd = false) cmds)))).
Proof.
  destruct (AddCommands_frame cmds bot) as (Hc & Ha & _).
  assert (E : Commands (AddCommands cmds bot)
              = Commands bot ++ filter (fun cmd => Hide cmd = false) cmds).
  { unfold Commands. rewrite Hc. apply filter_app. }
  split; [exact E|]. split.
  - unfold Commands. apply Forall_forall. intros cmd Hin.
    apply list_elem_of_filter in Hin. apply Hin.
  - unfold setupCommands. rewrite E, Ha. reflexivity.
Qed.

(** ** The start of a run *)

(** X5: [Run] first requests the command menu, once, and does nothing more
    before the answer: a refusal comes back as the error "failed to setup
    commands, error: ..." and nothing is started; otherwise the run starts
    with as many workers as the worker count (none when it is not
    positive), all waiting, counted by the wait group, the loop at the top
    of its cycle and an empty channel. *)
Theorem Run_startup (bot : Bot) :
  trace (Run bot) = [EvSetMyCommands (map menu_entry (Commands bot))]
  /\ match SetMyCommands (api bot) (map menu_entry (Commands bot)) with
     | Some e =>
       outcome_of (Run bot)
       = Normal (inl ("failed to setup commands, error: " ++ e)%string)
     | None =>
       exists s,
         outcome_of (Run bot) = Normal (inr s)
         /\ Runtime.workers s = replicate (Z.to_nat (workerNum bot)) Runtime.WSelect
         /\ (workerNum bot <= 0 -> Runtime.workers s = [])
         /\ Runtime.wg s = length (Runtime.workers s)
         /\ Runtime.loop s = Runtime.LTop
         /\ Runtime.updateC s = []
         /\ Runtime.cancelled s = false
         /\ Runtime.stop s = Runtime.SNotCalled
     end.
Proof.
  unfold Run, setupCommands. fold menu_entry. simpl.
  destruct (SetMyCommands (api bot) (map menu_entry (Commands bot))) as [e|]; simpl.
  - split; reflexivity.
  - split; [reflexivity|]. eexists. split; [reflexivity|]. simpl.
    repeat split.
    + intros Hle. replace (Z.to_nat (workerNum bot)) with 0%nat by lia. reflexivity.
    + rewrite length_replicate. reflexivity.
Qed.

(** ** Replies *)

(** X6: a reply to an update that has no chat panics on the nil chat before
    anything is sent, whichever reply function is used and whatever the
    options, [WithChatId] included. *)
Theorem reply_without_chat (ctx : Context) (text : string)
  (opts : list MessageConfigOption) :
  FromChat (update ctx) = None ->
  ReplyText ctx text opts = ([], Panic nil_dereference)
  /\ ReplyMarkdown ctx text opts = ([], Panic nil_dereference)
  /\ ReplyHTML ctx text opts = ([], Panic nil_dereference).
Proof.
  intros H. unfold ReplyText, ReplyMarkdown, ReplyHTML, reply. rewrite H.
  repeat split.
Qed.

Lemma reply_without_chat_witness :
  ReplyText (allocateContext (NewBot 4 Sample.api_ok []) (Sample.bare_update 1))
    "pong" [WithChatId 9]
  = ([], Panic nil_dereference).
Proof.
  apply (reply_without_chat
           (allocateContext (NewBot 4 Sample.api_ok []) (Sample.bare_update 1))
           "pong" [WithChatId 9]).
  reflexivity.
Defined.

Lemma reply_sends_msg (ctx : Context) (text : string)
  (opts : list MessageConfigOption) (chat : Chat) :
  FromChat (update ctx) = Some chat ->
  reply ctx text opts
  = ([EvSend (apply_opts opts (plain_message chat text))],
     Normal (Send (Context_BotAPI ctx) (apply_opts opts (plain_message chat text)))).
Proof. intros H. unfold reply. rewrite H. reflexivity. Qed.

(** X7: a reply to an update that has a chat sends one message and returns
    the service's answer to it.  The message is the text for that chat with
    the web page preview disabled, changed by the options in their order;
    [ReplyMarkdown] and [ReplyHTML] set their parse mode before the options
    of the caller, which therefore have the last word. *)
Theorem reply_sends (ctx : Context) (text : string)
  (opts : list MessageConfigOption) (chat : Chat) :
  FromChat (update ctx) = Some chat ->
  let sent_as (msg : MessageConfig) : M (option error) :=
    ([EvSend msg], Normal (Send (Context_BotAPI ctx) msg)) in
  let with_mode (mode : string) : MessageConfig :=
    {| ChatID := ID chat; Text := text;
       DisableWebPagePreview := true; ParseMode := mode |} in
  ReplyText ctx text opts = sent_as (apply_opts opts (with_mode ""))
  /\ ReplyMarkdown ctx text opts = sent_as (apply_opts opts (with_mode ModeMarkdown))
  /\ ReplyHTML ctx text opts = sent_as (apply_opts opts (with_mode ModeHTML))
  /\ ReplyText ctx text [] = sent_as (with_mode "").
Proof.
  intros H sent_as with_mode. unfold ReplyText, ReplyMarkdown, ReplyHTML, mergeOpts.
  rewrite !(reply_sends_msg _ _ _ chat H). repeat split.
Qed.

Lemma reply_sends_witness :
  let ctx := allocateContext (NewBot 4 Sample.api_down [])
               (Sample.message_update 1 Sample.text_message) in
  ReplyMarkdown ctx "*pong*" [WithEnableWebPagePreview]
  = ([EvSend {| ChatID := 7; Text := "*pong*";
                DisableWebPagePreview := false; ParseMode := ModeMarkdown |}],
     Normal (Some "Bad Gateway")).
Proof.
  intros ctx.
  destruct (reply_sends ctx "*pong*" [WithEnableWebPagePreview] {| ID := 7 |} eq_refl)
    as (_ & H & _).
  rewrite H. reflexivity.
Defined.

Lemma apply_opts_snoc (opts : list MessageConfigOption) (o : MessageConfigOption)
  (msg : MessageConfig) :
  apply_opts (opts ++ [o]) msg = o (apply_opts opts msg).
Proof. unfold apply_opts. rewrite fold_left_app. reflexivity. Qed.

(** X8: of the options of a reply the last [WithChatId] decides the chat
    and a final [WithEnableWebPagePreview] enables the preview, whatever
    came before; and options of the package, in any number and order, leave
    the text and the parse mode of the message alone. *)
Theorem reply_option_effects (opts : list MessageConfigOption)
  (msg : MessageConfig) (chatId : Z) :
  ChatID (apply_opts (opts ++ [WithChatId chatId]) msg) = chatId
  /\ DisableWebPagePreview (apply_opts (opts ++ [WithEnableWebPagePreview]) msg) = false
  /\ (Forall (fun o => o = WithEnableWebPagePreview \/ exists c, o = WithChatId c) opts ->
      Text (apply_opts opts msg) = Text msg
      /\ ParseMode (apply_opts opts msg) = ParseMode msg).
Proof.
  split; [|split].
  - rewrite apply_opts_snoc. reflexivity.
  - rewrite apply_opts_snoc. reflexivity.
  - revert msg. induction opts as [|o opts IH]; intros msg Hall; [split; reflexivity|].
    inversion Hall as [|? ? Ho Hrest]; subst.
    change (apply_opts (o :: opts) msg) with (apply_opts opts (o msg)).
    destruct (IH (o msg) Hrest) as [Ht Hp]. rewrite Ht, Hp.
    destruct Ho as [-> | [c ->]]; split; reflexivity.
Qed.

(** ** The execution of an update, as a whole *)

Lemma trace_bind {A B} (m : M A) (f : A -> M B) :
  trace (bind m f)
  = trace m ++ match outcome_of m with
               | Normal a => trace (f a)
               | Panic _ => []
               end.
Proof.
  destruct m as [t [a|v]]; simpl; [|rewrite app_nil_r; reflexivity].
  destruct (f a); reflexivity.
Qed.

Lemma handleUpdate_body_trace (bot : Bot) (ctx : Context) :
  trace (handleUpdate_body bot ctx)
  = submission_events bot ctx ++ trace (executeHandler bot ctx).
Proof.
  unfold handleUpdate_body, submission_events, Submit.
  destruct (workerPool bot) as [p|]; simpl.
  - destruct (Submit_error p); simpl;
      destruct (executeHandler bot ctx) as [t r]; simpl;
      rewrite ?app_nil_r; reflexivity.
  - destruct (executeHandler bot ctx) as [t r]; reflexivity.
Qed.

Lemma recovered_events (bot : Bot) (ctx : Context) (e : interface) :
  Forall (fun ev => is_recovery_event ev = true) (trace (recovered bot ctx e)).
Proof.
  unfold recovered, call_panicHandler, ReplyText, reply, report.
  destruct (panicHandler bot) as [[|f]|]; simpl.
  - destruct e; simpl; destruct (FromChat (update ctx)); simpl;
      try destruct (Send _ _); simpl; repeat constructor.
  - destruct (String.eqb (f e) ""); simpl; [repeat constructor|].
    destruct (FromChat (update ctx)); simpl;
      try destruct (Send _ _); simpl; repeat constructor.
  - constructor.
Qed.

Lemma handleUpdate_shape (bot : Bot) (u : Update) :
  exists recovery,
    trace (handleUpdate bot u)
    = submission_events bot (allocateContext bot u)
      ++ trace (executeHandler bot (allocateContext bot u))
      ++ recovery
    /\ Forall (fun ev => is_recovery_event ev = true) recovery
    /\ (recovery <> [] ->
        exists s, outcome_of (executeHandler bot (allocateContext bot u))
                  = Panic (Some s)).
Proof.
  unfold handleUpdate.
  pose proof (handleUpdate_body_trace bot (allocateContext bot u)) as Ht.
  pose proof (handleUpdate_body_outcome bot (allocateContext bot u)) as Ho.
  destruct (installs_recovery bot).
  - unfold defer_recover.
    destruct (handleUpdate_body bot (allocateContext bot u)) as [t [a|[s|]]];
      simpl in Ht, Ho.
    + exists []. rewrite app_nil_r. repeat split; [exact Ht | constructor | congruence].
    + pose proof (recovered_events bot (allocateContext bot u) (Some s)) as Hr.
      destruct (recovered bot (allocateContext bot u) (Some s)) as [t' r]. simpl in *.
      exists t'. rewrite Ht, <- app_assoc. repeat split; [exact Hr|].
      intros _. exists s. symmetry. exact Ho.
    + exists []. rewrite app_nil_r. repeat split; [exact Ht | constructor | congruence].
  - exists []. rewrite app_nil_r. repeat split; [exact Ht | constructor | congruence].
Qed.

(** X9: what [handleUpdate] does is, in this order, the submission to the
    pool when there is one, the inline execution, and after a panic of that
    execution events of the recovery only (the panic handler, a send,
    reports); a recovery happens only if the inline execution panicked. *)
Theorem handleUpdate_trace (bot : Bot) (u : Update) :
  exists recovery,
    trace (handleUpdate bot u)
    = submission_events bot (allocateContext bot u)
      ++ trace (executeHandler bot (allocateContext bot u))
      ++ recovery
    /\ Forall (fun ev => is_recovery_event ev = true) recovery
    /\ (recovery <> [] ->
        exists s, outcome_of (executeHandler bot (allocateContext bot u))
                  = Panic (Some s)).
Proof.
  unfold handleUpdate.
  pose proof (handleUpdate_body_trace bot (allocateContext bot u)) as Ht.
  pose proof (handleUpdate_body_outcome bot (allocateContext bot u)) as Ho.
  destruct (installs_recovery bot).
  - unfold defer_recover.
    destruct (handleUpdate_body bot (allocateContext bot u)) as [t [a|[s|]]];
      simpl in Ht, Ho.
    + exists []. rewrite app_nil_r. repeat split; [exact Ht | constructor | congruence].
    + pose proof (recovered_events bot (allocateContext bot u) (Some s)) as Hr.
      destruct (recovered bot (allocateContext bot u) (Some s)) as [t' r]. simpl in *.
      exists t'. rewrite Ht, <- app_assoc. repeat split; [exact Hr|].
      intros _. exists s. symmetry. exact Ho.
    + exists []. rewrite app_nil_r. repeat split; [exact Ht | constructor | congruence].
  - exists []. rewrite app_nil_r. repeat split; [exact Ht | constructor | congruence].
Qed.

Lemma updates_handler_calls_app (t1 t2 : list event) :
  updates_handler_calls (t1 ++ t2)
  = updates_handler_calls t1 ++ updates_handler_calls t2.
Proof.
  induction t1 as [|e t1 IH]; simpl; [reflexivity|].
  destruct (unpool e); simpl; rewrite IH; reflexivity.
Qed.

Lemma puts_app (t1 t2 : list event) : puts (t1 ++ t2) = (puts t1 + puts t2)%nat.
Proof.
  induction t1 as [|e t1 IH]; simpl; [reflexivity|].
  destruct (unpool e); simpl; rewrite IH; reflexivity.
Qed.

Lemma readings_in_pool (t : list event) :
  handler_calls (map EvInPool t) = handler_calls t
  /\ updates_handler_calls (map EvInPool t) = updates_handler_calls t
  /\ puts (map EvInPool t) = puts t.
Proof.
  induction t as [|e t (IH1 & IH2 & IH3)]; simpl; [repeat split|].
  rewrite IH1, IH2, IH3. repeat split.
Qed.

Lemma readings_of_recovery (t : list event) :
  Forall (fun ev => is_recovery_event ev = true) t ->
  handler_calls t = [] /\ updates_handler_calls t = [] /\ puts t = 0%nat
  /\ touched t = [].
Proof.
  induction 1 as [|e t He _ (IH1 & IH2 & IH3 & IH4)]; [repeat split|].
  destruct e; try discriminate; simpl; repeat split; assumption.
Qed.

Lemma readings_of_submission (bot : Bot) (ctx : Context) :
  handler_calls (submission_events bot ctx)
  = (if pool_takes bot then handler_calls (trace (executeHandler bot ctx)) else [])
  /\ updates_handler_calls (submission_events bot ctx)
     = (if pool_takes bot
        then updates_handler_calls (trace (executeHandler bot ctx)) else [])
  /\ puts (submission_events bot ctx)
     = (if pool_takes bot then puts (trace (executeHandler bot ctx)) else 0%nat).
Proof.
  unfold submission_events, pool_takes.
  destruct (workerPool bot) as [p|]; [|repeat split].
  destruct (Submit_error p); simpl; [repeat split|].
  apply readings_in_pool.
Qed.

(** The calls and puts of [handleUpdate] are those of the inline execution,
    and once more those when a pool has taken the execution. *)
Lemma handleUpdate_readings (bot : Bot) (u : Update) :
  let exec := trace (executeHandler bot (allocateContext bot u)) in
  handler_calls (trace (handleUpdate bot u))
  = (if pool_takes bot then handler_calls exec else []) ++ handler_calls exec
  /\ updates_handler_calls (trace (handleUpdate bot u))
     = (if pool_takes bot then updates_handler_calls exec else [])
       ++ updates_handler_calls exec
  /\ puts (trace (handleUpdate bot u))
     = ((if pool_takes bot then puts exec else 0) + puts exec)%nat.
Proof.
  intros exec. subst exec.
  destruct (handleUpdate_shape bot u) as (rec & -> & Hrec & _).
  destruct (readings_of_recovery rec Hrec) as (H1 & H2 & H3 & _).
  destruct (readings_of_submission bot (allocateContext bot u)) as (S1 & S2 & S3).
  rewrite !handler_calls_app, !updates_handler_calls_app, !puts_app.
  rewrite H1, H2, H3, S1, S2, S3, !app_nil_r, Nat.add_0_r. repeat split.
Qed.

Lemma executeHandler_routes (bot : Bot) (ctx : Context) :
  (if is_command_update (update ctx)
   then updates_handler_calls (trace (executeHandler bot ctx)) = []
   else handler_calls (trace (executeHandler bot ctx)) = [])
  /\ (length (handler_calls (trace (executeHandler bot ctx)))
      + length (updates_handler_calls (trace (executeHandler bot ctx))) <= 1)%nat
  /\ puts (trace (executeHandler bot ctx))
     = match outcome_of (executeHandler bot ctx) with
       | Normal _ => 1%nat
       | Panic _ => 0%nat
       end.
Proof.
  unfold executeHandler, executeCommandHandler, executeUpdatesHandler,
    undefinedCmdHandler, call, ReplyText, reply, report.
  destruct (is_command_update (update ctx)).
  - destruct (cmdHandlers bot !! Ctx.Command ctx) as [[h|]|]; simpl.
    + destruct (h ctx) as [[e|]|v]; simpl; repeat split; lia.
    + repeat split; lia.
    + destruct (undefinedCommandHandler bot) as [h|]; simpl.
      * destruct (h ctx) as [[e|]|v]; simpl; repeat split; lia.
      * destruct (FromChat (update ctx)); simpl; [|repeat split; lia].
        destruct (Send _ _); simpl; repeat split; lia.
  - destruct (updatesHandler bot) as [h|]; simpl; [|repeat split; lia].
    destruct (h ctx) as [[]|v]; simpl; repeat split; lia.
Qed.

(** X10: one execution of an update calls at most one handler of the user:
    a command handler only for a command update, the updates handler only
    for another update; and it puts the context back exactly when it
    returns, not after a panic. *)
Theorem routing_exclusive (bot : Bot) (ctx : Context) :
  (if is_command_update (update ctx)
   then updates_handler_calls (trace (executeHandler bot ctx)) = []
   else handler_calls (trace (executeHandler bot ctx)) = [])
  /\ (length (handler_calls (trace (executeHandler bot ctx)))
      + length (updates_handler_calls (trace (executeHandler bot ctx))) <= 1)%nat
  /\ puts (trace (executeHandler bot ctx))
     = match outcome_of (executeHandler bot ctx) with
       | Normal _ => 1%nat
       | Panic _ => 0%nat
       end.
Proof.
  unfold executeHandler, executeCommandHandler, executeUpdatesHandler,
    undefinedCmdHandler, call, ReplyText, reply, report.
  destruct (is_command_update (update ctx)).
  - destruct (cmdHandlers bot !! Ctx.Command ctx) as [[h|]|]; simpl.
    + destruct (h ctx) as [[e|]|v]; simpl; repeat split; lia.
    + repeat split; lia.
    + destruct (undefinedCommandHandler bot) as [h|]; simpl.
      * destruct (h ctx) as [[e|]|v]; simpl; repeat split; lia.
      * destruct (FromChat (update ctx)); simpl; [|repeat split; lia].
        destruct (Send _ _); simpl; repeat split; lia.
  - destruct (updatesHandler bot) as [h|]; simpl; [|repeat split; lia].
    destruct (h ctx) as [[]|v]; simpl; repeat split; lia.
Qed.

(** X11: an update whose [Message] field is nil is never given to a command
    handler, in the pool or inline, also when its edited message, channel
    post or edited channel post is a registered command. *)
Theorem no_command_without_message (bot : Bot) (u : Update) :
  Update_Message u = None ->
  handler_calls (trace (handleUpdate bot u)) = [].
Proof.
  intros Hm.
  destruct (handleUpdate_readings bot u) as (-> & _).
  destruct (executeHandler_routes bot (allocateContext bot u)) as (Hroute & _).
  simpl in Hroute. unfold is_command_update in Hroute. rewrite Hm in Hroute.
  rewrite Hroute. destruct (pool_takes bot); reflexivity.
Qed.

Lemma no_command_without_message_witness :
  let bot := AddCommand Sample.ping (NewBot 4 Sample.api_ok []) in
  let u := Sample.edited_post_update 1 (Sample.command_message "ping" "") in
  Ctx.Command (allocateContext bot u) = "ping"
  /\ handler_calls (trace (handleUpdate bot u)) = [].
Proof.
  intros bot u. split; [reflexivity|].
  apply (no_command_without_message bot u). reflexivity.
Defined.

(** X12: when there is no pool, or the pool refuses the submission, an
    update is executed once: the calls of handlers and the puts of
    [handleUpdate] are those of one execution, so at most one handler of the
    user is called. *)
Theorem handleUpdate_once (bot : Bot) (u : Update) :
  pool_takes bot = false ->
  let exec := trace (executeHandler bot (allocateContext bot u)) in
  handler_calls (trace (handleUpdate bot u)) = handler_calls exec
  /\ updates_handler_calls (trace (handleUpdate bot u)) = updates_handler_calls exec
  /\ puts (trace (handleUpdate bot u)) = puts exec
  /\ (length (handler_calls (trace (handleUpdate bot u)))
      + length (updates_handler_calls (trace (handleUpdate bot u))) <= 1)%nat.
Proof.
  intros Hp exec. subst exec.
  destruct (handleUpdate_readings bot u) as (H1 & H2 & H3).
  rewrite Hp in H1, H2, H3. simpl in H1, H2, H3.
  rewrite H1, H2, H3. repeat split.
  apply (executeHandler_routes bot (allocateContext bot u)).
Qed.

Lemma handleUpdate_once_witness :
  let bot := AddCommand Sample.ping
               (NewBot 4 Sample.api_ok [WithWorkerPool (Some Sample.pool_closed)]) in
  let u := Sample.message_update 1 (Sample.command_message "ping" "") in
  handler_calls (trace (handleUpdate bot u)) = [(Sample.h_ok, allocateContext bot u)]
  /\ puts (trace (handleUpdate bot u)) = 1%nat.
Proof.
  intros bot u.
  destruct (handleUpdate_once bot u eq_refl) as (H1 & _ & H3 & _).
  rewrite H1, H3. split; vm_compute; reflexivity.
Defined.

(** ** Errors and panics of handlers *)

(** X13: without a pool, the error that the handler of a command returns is
    reported to the error handler once and goes no further: the context is
    put back and [handleUpdate] returns. *)
Theorem handler_error_reported_once (bot : Bot) (u : Update) (h : Handler) (e : error) :
  workerPool bot = None ->
  is_command_update u = true ->
  cmdHandlers bot !! Ctx.Command (allocateContext bot u) = Some (Some h) ->
  h (allocateContext bot u) = Returns (Some e) ->
  handleUpdate bot u
  = ([EvHandler h (allocateContext bot u);
      EvErrHandler (errHandler bot) e;
      EvPut (allocateContext bot u)], Normal tt).
Proof.
  intros Hp Hcmd Hh He.
  unfold handleUpdate, installs_recovery, handleUpdate_body. rewrite Hp.
  unfold executeHandler, executeCommandHandler, Handler in *.
  replace (update (allocateContext bot u)) with u by reflexivity.
  rewrite Hcmd, Hh. unfold call. simpl. rewrite He. reflexivity.
Qed.

Lemma handler_error_reported_once_witness :
  let lookup := {| Name := "whois"; Description := "looks a user up"; Hide := false;
                   Command_Handler := Some Sample.h_fails |} in
  let bot := AddCommand lookup (NewBot 4 Sample.api_ok []) in
  let u := Sample.message_update 1 (Sample.command_message "whois" "bob") in
  handleUpdate bot u
  = ([EvHandler Sample.h_fails (allocateContext bot u);
      EvErrHandler ErrHandlerNop "no such user";
      EvPut (allocateContext bot u)], Normal tt).
Proof.
  intros lookup bot u.
  apply (handler_error_reported_once bot u Sample.h_fails "no such user");
    reflexivity.
Defined.

Lemma handleUpdate_returns (bot : Bot) (u : Update) (ph : PanicHandler) :
  panicHandler bot = Some ph ->
  FromChat u <> None ->
  outcome_of (handleUpdate bot u) = Normal tt.
Proof.
  intros Hph Hchat.
  destruct (FromChat u) as [chat|] eqn:Hc; [clear Hchat | congruence].
  unfold handleUpdate.
  assert (Hrec : installs_recovery bot = true).
  { unfold installs_recovery. rewrite Hph. destruct (workerPool bot); reflexivity. }
  rewrite Hrec.
  destruct (outcome_of (handleUpdate_body bot (allocateContext bot u)))
    as [[]|[s|]] eqn:Hbody.
  - rewrite defer_recover_normal; assumption.
  - destruct (defer_recover_panic _ (recovered bot (allocateContext bot u)) s Hbody)
      as [_ Ho].
    rewrite Ho, (recovered_replies bot (allocateContext bot u) ph s chat Hph Hc eq_refl).
    reflexivity.
  - unfold defer_recover.
    destruct (handleUpdate_body bot (allocateContext bot u)) as [t r].
    simpl in Hbody. rewrite Hbody. reflexivity.
Qed.

(** X14: a worker of a bot that has a panic handler gets through every
    update that has a chat, whatever the handlers do and with or without a
    pool: it handles the updates it receives one after the other, all of
    them, and returns only at their end. *)
Theorem worker_survives (bot : Bot) (ph : PanicHandler) (received : list Update) :
  panicHandler bot = Some ph ->
  Forall (fun u => FromChat u <> None) received ->
  outcome_of (startWorker bot received) = Normal tt
  /\ trace (startWorker bot received)
     = List.flat_map (fun u => trace (handleUpdate bot u)) received.
Proof.
  intros Hph. induction 1 as [|u rest Hu _ [IHo IHt]]; [split; reflexivity|].
  pose proof (handleUpdate_returns bot u ph Hph Hu) as Hret.
  destruct (startWorker_next bot u rest Hret) as [Ht Ho].
  rewrite Ht, Ho, IHt. split; [exact IHo | reflexivity].
Qed.

Lemma worker_survives_witness :
  let bot := AddCommand Sample.crash (NewBot 4 Sample.api_down []) in
  let u := Sample.message_update 1 (Sample.command_message "crash" "") in
  outcome_of (startWorker bot [u; u; u]) = Normal tt.
Proof.
  intros bot u.
  apply (worker_survives bot PanicHandlerDefault [u; u; u]); [reflexivity|].
  repeat constructor; discriminate.
Defined.



(** X16: with the panic handler set to nil nothing contains a panic of the
    execution: with a pool the panic leaves [handleUpdate] as it is, without
    a pool the recovery calls the nil panic handler and panics on that. *)
Theorem nil_panicHandler_contains_nothing (bot : Bot) (u : Update) (s : string) :
  panicHandler bot = None ->
  outcome_of (executeHandler bot (allocateContext bot u)) = Panic (Some s) ->
  outcome_of (handleUpdate bot u)
  = Panic (match workerPool bot with
           | Some _ => Some s
           | None => nil_dereference
           end)
  /\ trace (handleUpdate bot u)
     = submission_events bot (allocateContext bot u)
       ++ trace (executeHandler bot (allocateContext bot u)).
Proof.
  intros Hph Hpanic.
  assert (Hbody : outcome_of (handleUpdate_body bot (allocateContext bot u))
                  = Panic (Some s)).
  { rewrite handleUpdate_body_outcome. exact Hpanic. }
  unfold handleUpdate, installs_recovery. rewrite Hph.
  destruct (workerPool bot) as [p|] eqn:Hp.
  - split; [exact Hbody | apply handleUpdate_body_trace].
  - destruct (defer_recover_panic _ (recovered bot (allocateContext bot u)) s Hbody)
      as [Ht Ho].
    assert (Hr : recovered bot (allocateContext bot u) (Some s)
                 = ([], Panic nil_dereference)).
    { unfold recovered, call_panicHandler. rewrite Hph. reflexivity. }
    rewrite Hr in Ht, Ho. simpl in Ht, Ho. rewrite app_nil_r in Ht.
    split; [exact Ho | rewrite Ht; apply handleUpdate_body_trace].
Qed.

Lemma nil_panicHandler_contains_nothing_witness :
  let bot := AddCommand Sample.crash (NewBot 4 Sample.api_ok [WithPanicHandler None]) in
  let u := Sample.message_update 1 (Sample.command_message "crash" "") in
  outcome_of (handleUpdate bot u) = Panic nil_dereference.
Proof.
  intros bot u.
  destruct (nil_panicHandler_contains_nothing bot u "boom" eq_refl) as [H _].
  - vm_compute. reflexivity.
  - rewrite H. reflexivity.
Defined.

(** ** The watermark after a batch *)

Lemma next_offset_max (offset a : Z) (updates : list Update) :
  next_offset (Z.max offset a) updates = Z.max a (next_offset offset updates).
Proof.
  induction updates as [|u us IH]; simpl; [lia|]. rewrite IH. lia.
Qed.

Lemma next_offset_above (offset : Z) (updates : list Update) :
  offset <= next_offset offset updates
  /\ Forall (fun u => UpdateID u < next_offset offset updates) updates.
Proof.
  induction updates as [|u us [IHo IHf]]; simpl; [split; [lia | constructor]|].
  split; [lia|]. constructor; [lia|].
  eapply Forall_impl; [exact IHf|]. simpl. intros x Hx. lia.
Qed.

Lemma range_body_small (w : Z) (c : list Update) (u : Update) :
  GoInt.in_range (UpdateID u) -> UpdateID u < GoInt.max_int ->
  range_body (w, c) u
  = (Z.max w (UpdateID u + 1), if UpdateID u >=? w then c ++ [u] else c).
Proof.
  intros Hr Hm. unfold range_body.
  destruct (UpdateID u >=? w) eqn:E.
  - rewrite GoInt_add_1 by assumption.
    rewrite Z.geb_leb in E. apply Z.leb_le in E. f_equal. lia.
  - rewrite Z.geb_leb in E. apply Z.leb_gt in E. f_equal. lia.
Qed.

Lemma rangeUpdates_cons (u : Update) (us : list Update) (offset : Z)
  (updateC : list Update) :
  rangeUpdates offset updateC (u :: us)
  = rangeUpdates (fst (range_body (offset, updateC) u))
      (snd (range_body (offset, updateC) u)) us.
Proof.
  unfold rangeUpdates.
  change (fold_left range_body (u :: us) (offset, updateC))
    with (fold_left range_body us (range_body (offset, updateC) u)).
  destruct (range_body (offset, updateC) u); reflexivity.
Qed.

Lemma rangeUpdates_next_offset (updates : list Update) (offset : Z) (updateC : list Update) :
  small_batch updates ->
  fst (rangeUpdates offset updateC updates) = next_offset offset updates.
Proof.
  intros Hsmall. revert offset updateC.
  induction Hsmall as [|u us [Hr Hm] _ IH]; intros offset updateC; [reflexivity|].
  rewrite rangeUpdates_cons, (range_body_small offset updateC u Hr Hm), IH. simpl.
  rewrite next_offset_max. lia.
Qed.

Lemma rangeUpdates_below (updates : list Update) (w : Z) (c : list Update) :
  Forall (fun u => UpdateID u < w) updates ->
  rangeUpdates w c updates = (w, c).
Proof.
  induction 1 as [|u us Hu _ IH]; [reflexivity|].
  unfold rangeUpdates in *. simpl.
  destruct (UpdateID u >=? w) eqn:E; [|exact IH].
  rewrite Z.geb_leb in E. apply Z.leb_le in E. lia.
Qed.

(** X17: for a batch whose IDs are below the largest int, the watermark
    after the batch is the larger of the watermark before it and one more
    than the largest ID of the batch; it is above every ID of the batch, so
    the same batch, or any updates of it, delivered again send nothing and
    leave the watermark where it is. *)
Theorem redelivery_sends_nothing (offset : Z) (updateC updates again : list Update) :
  small_batch updates ->
  Forall (fun u => In u updates) again ->
  let w := fst (rangeUpdates offset updateC updates) in
  let c := snd (rangeUpdates offset updateC updates) in
  w = next_offset offset updates
  /\ offset <= w
  /\ Forall (fun u => UpdateID u < w) updates
  /\ rangeUpdates w c updates = (w, c)
  /\ rangeUpdates w c again = (w, c).
Proof.
  intros Hsmall Hagain w c. subst w c.
  rewrite (rangeUpdates_next_offset updates offset updateC Hsmall).
  destruct (next_offset_above offset updates) as [Hle Hall].
  split; [reflexivity|]. split; [exact Hle|]. split; [exact Hall|].
  split; apply rangeUpdates_below; [exact Hall|].
  rewrite Forall_forall in Hall.
  eapply Forall_impl; [exact Hagain|]. simpl. intros u Hin.
  apply Hall, list_elem_of_In, Hin.
Qed.

Lemma redelivery_sends_nothing_witness :
  rangeUpdates 7 [Sample.u5; Sample.u6] [Sample.u6; Sample.u5]
  = (7, [Sample.u5; Sample.u6]).
Proof.
  assert (Hsmall : small_batch [Sample.u5; Sample.u6]).
  { repeat constructor; vm_compute; discriminate || reflexivity. }
  assert (Hin : Forall (fun u => In u [Sample.u5; Sample.u6]) [Sample.u6; Sample.u5]).
  { constructor; [right; left; reflexivity|].
    constructor; [left; reflexivity | constructor]. }
  destruct (redelivery_sends_nothing 0 [] [Sample.u5; Sample.u6] [Sample.u6; Sample.u5]
              Hsmall Hin) as (_ & _ & _ & _ & H).
  exact H.
Defined.

(** X18: a batch whose IDs increase strictly, start at or above the
    watermark and stay below the largest int is sent whole, in its order,
    after what was sent before. *)
Theorem increasing_batch_sent_whole (updates : list Update) (offset : Z)
  (updateC : list Update) :
  small_batch updates ->
  ids_increase updates ->
  Forall (fun u => offset <= UpdateID u) updates ->
  rangeUpdates offset updateC updates
  = (next_offset offset updates, updateC ++ updates).
Proof.
  intros Hsmall. revert offset updateC.
  induction Hsmall as [|u us [Hr Hm] Hrest IH]; intros offset updateC Hinc Hge.
  - simpl. rewrite app_nil_r. reflexivity.
  - inversion Hinc as [|? ? Hinc' Hlt]; subst.
    inversion Hge as [|? ? Hu Hge']; subst.
    rewrite rangeUpdates_cons, (range_body_small offset updateC u Hr Hm).
    assert (E : (UpdateID u >=? offset) = true).
    { rewrite Z.geb_leb. apply Z.leb_le. exact Hu. }
    rewrite E. simpl fst. simpl snd.
    replace (Z.max offset (UpdateID u + 1)) with (UpdateID u + 1) by lia.
    rewrite IH; [| exact Hinc' |].
    + simpl. rewrite <- app_assoc. f_equal.
      rewrite <- (next_offset_max offset (UpdateID u + 1) us).
      f_equal. lia.
    + rewrite Forall_forall in Hlt. apply Forall_forall. intros x Hx.
      specialize (Hlt x Hx). simpl in Hlt. lia.
Qed.

Lemma increasing_batch_sent_whole_witness :
  rangeUpdates 3 [] [Sample.u5; Sample.u6] = (7, [Sample.u5; Sample.u6]).
Proof.
  rewrite (increasing_batch_sent_whole [Sample.u5; Sample.u6] 3 []).
  - reflexivity.
  - repeat constructor; vm_compute; discriminate || reflexivity.
  - repeat constructor.
  - repeat constructor; vm_compute; discriminate.
Defined.

(** ** What the options leave alone *)




Lemma apply_options_snoc (opts : list Option) (o : Option) (b : Bot) :
  apply_options (opts ++ [o]) b = o (apply_options opts b).
Proof. unfold apply_options. rewrite fold_left_app. reflexivity. Qed.

(** X26: among error-handler options the last one with a non-nil handler
    decides, and a nil one never takes a handler away; the same holds of
    the undefined-command-handler options. *)
Theorem handler_options_chain (errs : list (option ErrHandler))
  (hs : list (option Handler)) (b : Bot) :
  errHandler (apply_options (map WithErrorHandler errs) b)
  = default (errHandler b) (last (omap id errs))
  /\ undefinedCommandHandler (apply_options (map WithUndefinedCmdHandler hs) b)
     = match last (omap id hs) with
       | Some h => Some h
       | None => undefinedCommandHandler b
       end.
Proof.
  split.
  - induction errs as [|e errs IH] using rev_ind; [reflexivity|].
    rewrite map_app.
    change (map WithErrorHandler [e]) with [WithErrorHandler e].
    rewrite apply_options_snoc, omap_app. simpl.
    destruct e as [f|]; simpl.
    + rewrite last_snoc. simpl.
      destruct (apply_options (map WithErrorHandler errs) b); reflexivity.
    + rewrite app_nil_r. exact IH.
  - induction hs as [|h hs IH] using rev_ind; [reflexivity|].
    rewrite map_app.
    change (map WithUndefinedCmdHandler [h]) with [WithUndefinedCmdHandler h].
    rewrite apply_options_snoc, omap_app. simpl.
    destruct h as [f|]; simpl.
    + rewrite last_snoc.
      destruct (apply_options (map WithUndefinedCmdHandler hs) b); reflexivity.
    + rewrite app_nil_r. exact IH.
Qed.

(** ** The watermark during a run *)

Import Runtime.

(** A step leaves the watermark alone or is the assignment of the range
    loop, which leads to the send of the update and sends nothing itself. *)
Lemma step_offset (bufSize : nat) (s s' : state) :
  step bufSize s s' ->
  offset s' = offset s
  \/ exists update rest,
       loop s = LRange (update :: rest)
       /\ UpdateID update >= offset s
       /\ loop s' = LSend update rest
       /\ offset s' = GoInt.add (UpdateID update) 1
       /\ sent s' = sent s
       /\ updateC s' = updateC s.
Proof.
  intros H. step_cases H; try (left; reflexivity).
  right. exists update0, rest. repeat split; assumption.
Qed.

Lemma step_offset_le (bufSize : nat) (s s' : state) :
  step bufSize s s' -> small_ids s -> offset s <= offset s'.
Proof.
  intros H Hsmall. destruct (step_offset _ _ _ H) as [-> | (u & rest & Hl & Hge & _ & -> & _)].
  - lia.
  - unfold small_ids, pending in Hsmall. rewrite Hl in Hsmall.
    inversion Hsmall as [|? ? [Hr Hm] _]; subst.
    rewrite GoInt_add_1 by assumption. lia.
Qed.

(** At the send the watermark is already that of the update being sent. *)
Lemma send_after_offset (bufSize workerNum : nat) (offset0 : Z) (s : state) :
  reachable bufSize workerNum offset0 s ->
  forall update rest,
    loop s = LSend update rest -> offset s = GoInt.add (UpdateID update) 1.
Proof.
  induction 1 as [|s s' Hr IH Hstep]; intros u rest Hl; [discriminate|].
  step_cases Hstep; try discriminate; try (eapply IH; eassumption).
  inversion Hl; subst. reflexivity.
Qed.

(** C7, as the code has it: the watermark never decreases as long as the
    updates have IDs below the largest int, in a step and so in a run; a
    step that changes it is the assignment [bot.offset = update.UpdateID + 1],
    which comes before the send of that update and sends nothing; and while
    the loop stands at the send, the watermark is already past the update
    that is not yet in the channel. *)
Theorem offset_set_before_send (bufSize workerNum : nat) (offset0 : Z) (s s' : state) :
  (step bufSize s s' -> small_ids s -> offset s <= offset s')
  /\ (steps_in bufSize small_ids s s' -> offset s <= offset s')
  /\ (step bufSize s s' -> offset s' <> offset s ->
      exists update rest,
        loop s = LRange (update :: rest)
        /\ loop s' = LSend update rest
        /\ offset s' = GoInt.add (UpdateID update) 1
        /\ sent s' = sent s
        /\ updateC s' = updateC s)
  /\ (reachable bufSize workerNum offset0 s ->
      forall update rest,
        loop s = LSend update rest -> offset s = GoInt.add (UpdateID update) 1).
Proof.
  split; [apply step_offset_le|]. split; [|split].
  - induction 1 as [|a b c Hsmall Hstep _ IH]; [lia|].
    pose proof (step_offset_le _ _ _ Hstep Hsmall). lia.
  - intros Hstep Hne.
    destruct (step_offset _ _ _ Hstep) as [E | (u & rest & Hl & _ & Hl' & Ho & Hs & Hc)];
      [contradiction|].
    exists u, rest. repeat split; assumption.
  - apply send_after_offset.
Qed.

Lemma reachable_fetched (bufSize : nat) (updates : list Update) :
  reachable bufSize 1 0 (Sample.fetched updates).
Proof.
  apply (reachable_step _ _ _ (set_loop LFetch (started 1 0))).
  - apply (reachable_step _ _ _ (started 1 0)); [apply reachable_started|].
    apply loop_default; reflexivity.
  - apply (loop_fetched bufSize (set_loop LFetch (started 1 0)) updates). reflexivity.
Qed.

Lemma offset_set_before_send_witness :
  let s := Sample.fetched [Sample.u5] in
  let s' := set_loop (LSend Sample.u5 []) (set_offset 6 s) in
  offset s <= offset s'
  /\ (exists update rest,
        loop s = LRange (update :: rest)
        /\ loop s' = LSend update rest
        /\ offset s' = GoInt.add (UpdateID update) 1
        /\ sent s' = sent s
        /\ updateC s' = updateC s)
  /\ offset s' = GoInt.add (UpdateID Sample.u5) 1.
Proof.
  intros s s'.
  assert (Hstep : step 1 s s').
  { apply (loop_range_advance 1 s Sample.u5 []); [reflexivity | vm_compute; discriminate]. }
  assert (Hsmall : small_ids s).
  { repeat constructor; vm_compute; discriminate || reflexivity. }
  destruct (offset_set_before_send 1 1 0 s s') as (Hle & _ & Hset & _).
  destruct (offset_set_before_send 1 1 0 s' s') as (_ & _ & _ & Hsend).
  split; [exact (Hle Hstep Hsmall)|]. split.
  - apply (Hset Hstep). vm_compute. discriminate.
  - apply (Hsend (reachable_step 1 1 0 s s' (reachable_fetched 1 [Sample.u5]) Hstep)
             Sample.u5 []).
    reflexivity.
Defined.

(** C7 fails as stated.  In a run with a buffer of one update the loop
    fetches an update of ID 5 and sets the watermark from 0 to 6 with
    nothing sent yet and the update in no channel and no worker; and an
    update whose ID is the largest int makes the watermark fall from 0 to
    the smallest int. *)
Lemma offset_set_with_nothing_sent :
  (exists s s',
     reachable 1 1 0 s /\ step 1 s s'
     /\ offset s = 0 /\ offset s' = 6
     /\ sent s' = [] /\ updateC s' = [] /\ workers s' = [WSelect])
  /\ (exists s s',
        reachable 1 1 0 s /\ step 1 s s'
        /\ offset s = 0 /\ offset s' = GoInt.min_int).
Proof.
  split.
  - exists (Sample.fetched [Sample.u5]),
           (set_loop (LSend Sample.u5 []) (set_offset 6 (Sample.fetched [Sample.u5]))).
    split; [apply reachable_fetched|]. split; [|repeat split].
    apply (loop_range_advance 1 _ Sample.u5 []); [reflexivity | vm_compute; discriminate].
  - exists (Sample.fetched [Sample.u_max]),
           (set_loop (LSend Sample.u_max [])
              (set_offset GoInt.min_int (Sample.fetched [Sample.u_max]))).
    split; [apply reachable_fetched|]. split; [|repeat split].
    apply (loop_range_advance 1 _ Sample.u_max []); [reflexivity | vm_compute; discriminate].
Qed.

(** ** Stop *)

Lemma live_insert_same (ws : list worker_pc) (i : nat) (w w' : worker_pc) :
  ws !! i = Some w -> w <> WExit -> w' <> WExit ->
  live (<[i := w']> ws) = live ws.
Proof.
  revert i. induction ws as [|x ws IH]; intros [|i] Hi Hw Hw'; simpl in *;
    try discriminate.
  - inversion Hi; subst. destruct w, w'; simpl; congruence.
  - rewrite (IH i Hi Hw Hw'). reflexivity.
Qed.

Lemma live_insert_exit (ws : list worker_pc) (i : nat) (w : worker_pc) :
  ws !! i = Some w -> w <> WExit ->
  live (<[i := WExit]> ws) = Nat.pred (live ws).
Proof.
  revert i. induction ws as [|x ws IH]; intros [|i] Hi Hw; simpl in *;
    try discriminate.
  - inversion Hi; subst. destruct w; simpl; congruence.
  - assert (Hpos : (0 < live ws)%nat).
    { clear IH. revert i Hi. induction ws as [|y ws IH']; intros [|i] Hi;
        simpl in *; try discriminate.
      - inversion Hi; subst. destruct w; [lia | lia | congruence].
      - specialize (IH' i Hi). destruct y; lia. }
    rewrite (IH i Hi Hw). destruct x; lia.
Qed.

Lemma live_none (ws : list worker_pc) :
  live ws = 0%nat -> Forall (fun w => w = WExit) ws.
Proof.
  induction ws as [|w ws IH]; simpl; [constructor|].
  destruct w; try discriminate. intros H. constructor; auto.
Qed.

Lemma live_replicate (n : nat) : live (replicate n WSelect) = n.
Proof. induction n as [|n IH]; simpl; [|rewrite IH]; reflexivity. Qed.

Lemma run_invariant_holds (bufSize workerNum : nat) (offset0 : Z) (s : state) :
  reachable bufSize workerNum offset0 s -> run_invariant s.
Proof.
  induction 1 as [|s s' _ (Hwg & Hstop & Hret) Hstep].
  - repeat split; simpl; [symmetry; apply live_replicate | congruence | discriminate].
  - unfold run_invariant.
    step_cases Hstep; repeat split; auto; try congruence.
    all: try (rewrite Hwg; symmetry;
              first [eapply live_insert_same; eauto; discriminate
                    | eapply live_insert_exit; eauto; discriminate]).
    all: try (intros Hr; rewrite (Hret Hr); reflexivity).
    intros _. apply Hstop. congruence.
Qed.

(** At the send, with no room in the buffer and no worker waiting, no step
    of any goroutine moves the loop, cancelled or not. *)
Lemma send_blocks (bufSize : nat) (s s' : state) (update : Update) (rest : list Update) :
  loop s = LSend update rest ->
  (bufSize <= length (updateC s))%nat ->
  (updateC s = [] -> Forall (fun w => w <> WSelect) (workers s)) ->
  step bufSize s s' ->
  loop s' = LSend update rest.
Proof.
  intros Hl Hfull Hnone Hstep.
  step_cases Hstep; try congruence; try lia.
  exfalso.
  match goal with
  | Hc : updateC s = [], Hw : workers s !! _ = Some WSelect |- _ =>
    specialize (Hnone Hc); rewrite Forall_forall in Hnone;
    apply (Hnone WSelect); [eapply list_elem_of_lookup_2, Hw | reflexivity]
  end.
Qed.

(** C4, as the code has it: once [Stop] has returned the context is
    cancelled and every worker has returned.  A worker at its select takes
    the cancellation, the loop takes it at the select at the top of its
    cycle and nowhere else: at its send into a full channel with no worker
    waiting nothing moves it. *)
Theorem Stop_waits_for_workers (bufSize workerNum : nat) (offset0 : Z) (s : state) :
  reachable bufSize workerNum offset0 s ->
  (stop s = SReturned ->
   cancelled s = true /\ Forall (fun w => w = WExit) (workers s))
  /\ (forall i, cancelled s = true -> workers s !! i = Some WSelect ->
      step bufSize s (set_wg (Nat.pred (wg s)) (set_worker i WExit s)))
  /\ (loop s = LTop -> cancelled s = true ->
      step bufSize s (set_loop LExit s)
      /\ forall s', step bufSize s s' -> loop s' = LTop \/ loop s' = LExit)
  /\ (forall update rest s',
      loop s = LSend update rest ->
      (bufSize <= length (updateC s))%nat ->
      (updateC s = [] -> Forall (fun w => w <> WSelect) (workers s)) ->
      step bufSize s s' ->
      loop s' = LSend update rest).
Proof.
  intros Hreach.
  destruct (run_invariant_holds _ _ _ _ Hreach) as (Hwg & Hstop & Hret).
  split; [|split; [|split]].
  - intros Hr. split.
    + apply Hstop. congruence.
    + apply live_none. rewrite <- Hwg. apply Hret, Hr.
  - intros i Hc Hw. apply worker_done; assumption.
  - intros Hl Hc. split; [apply loop_done; assumption|].
    intros s' Hstep. step_cases Hstep; try congruence; auto.
  - intros update rest s' Hl Hfull Hnone Hstep.
    eapply send_blocks; eassumption.
Qed.

(** A run in which [Stop] returns while the loop stands at its send. *)
Lemma reachable_at_second_send :
  reachable 1 1 0 (Sample.at_second_send true [WExit] 0 SReturned).
Proof.
  pose (s2 := Sample.fetched [Sample.u5; Sample.u6]).
  pose (s3 := set_loop (LSend Sample.u5 [Sample.u6]) (set_offset 6 s2)).
  pose (s4 := set_loop (LRange [Sample.u6])
                (set_sent [Sample.u5] (set_updateC [Sample.u5] s3))).
  pose (s5 := Sample.at_second_send false [WSelect] 1 SNotCalled).
  pose (s6 := Sample.at_second_send true [WSelect] 1 SWait).
  pose (s7 := Sample.at_second_send true [WExit] 0 SWait).
  assert (R2 : reachable 1 1 0 s2) by apply reachable_fetched.
  assert (R3 : reachable 1 1 0 s3).
  { apply (reachable_step _ _ _ s2 s3 R2).
    apply (loop_range_advance 1 s2 Sample.u5 [Sample.u6]);
      [reflexivity | vm_compute; discriminate]. }
  assert (R4 : reachable 1 1 0 s4).
  { apply (reachable_step _ _ _ s3 s4 R3).
    apply (loop_send_buffer 1 s3 Sample.u5 [Sample.u6]); [reflexivity | simpl; lia]. }
  assert (R5 : reachable 1 1 0 s5).
  { apply (reachable_step _ _ _ s4 s5 R4).
    apply (loop_range_advance 1 s4 Sample.u6 []);
      [reflexivity | vm_compute; discriminate]. }
  assert (R6 : reachable 1 1 0 s6).
  { apply (reachable_step _ _ _ s5 s6 R5). apply (stop_cancel 1 s5). reflexivity. }
  assert (R7 : reachable 1 1 0 s7).
  { apply (reachable_step _ _ _ s6 s7 R6).
    apply (worker_done 1 s6 0%nat); reflexivity. }
  apply (reachable_step _ _ _ s7 _ R7).
  apply (stop_return 1 s7); reflexivity.
Qed.

Lemma Stop_waits_for_workers_witness :
  let s := Sample.at_second_send true [WExit] 0 SReturned in
  (cancelled s = true /\ Forall (fun w => w = WExit) (workers s))
  /\ loop (set_cancelled true s) = LSend Sample.u6 [].
Proof.
  intros s.
  destruct (Stop_waits_for_workers 1 1 0 s reachable_at_second_send)
    as (Hstop & _ & _ & Hsend).
  split; [apply Hstop; reflexivity|].
  apply (Hsend Sample.u6 [] (set_cancelled true s)).
  - reflexivity.
  - simpl. lia.
  - discriminate.
  - apply parent_cancel.
Defined.

(** C4 fails as stated.  With a buffer of one update and one worker there is
    a run in which [Stop] has returned while the loop stands at its send
    into the full channel, and whatever happens from there on the loop
    stays at that send: it has not exited and never observes the
    cancellation. *)
Lemma loop_outlives_Stop :
  exists s,
    reachable 1 1 0 s
    /\ stop s = SReturned
    /\ cancelled s = true
    /\ loop s = LSend Sample.u6 []
    /\ forall s', steps 1 s s' -> loop s' = LSend Sample.u6 [].
Proof.
  exists (Sample.at_second_send true [WExit] 0 SReturned).
  split; [apply reachable_at_second_send|]. repeat split.
  assert (Hinv : forall a b,
             steps 1 a b ->
             loop a = LSend Sample.u6 [] /\ updateC a = [Sample.u5]
             /\ workers a = [WExit] ->
             loop b = LSend Sample.u6 []).
  { induction 1 as [a | a b c _ Hstep _ IH]; intros (Hl & Hc & Hw); [exact Hl|].
    apply IH.
    assert (Hl' : loop b = LSend Sample.u6 []).
    { eapply (send_blocks 1); [exact Hl | rewrite Hc; simpl; lia | rewrite Hc; discriminate
                          | exact Hstep]. }
    split; [exact Hl'|].
    step_cases Hstep; try congruence; try (split; assumption);
      match goal with
      | H : workers _ !! ?i = Some _ |- _ =>
        rewrite Hw in H; destruct i; simpl in H; discriminate
      end. }
  intros s' Hsteps. apply (Hinv _ _ Hsteps). repeat split.
Qed.

(** ** The loop of the run and the loop on a batch *)

Lemma steps_trans (bufSize : nat) (a b c : state) :
  steps bufSize a b -> steps bufSize b c -> steps bufSize a c.
Proof.
  unfold steps. induction 1 as [|x y z HP Hstep _ IH]; intros Hbc; [exact Hbc|].
  eapply steps_step; [exact HP | exact Hstep | apply IH, Hbc].
Qed.

Lemma steps_one (bufSize : nat) (a b : state) :
  step bufSize a b -> steps bufSize a b.
Proof. intros H. eapply steps_step; [exact I | exact H | apply steps_refl]. Qed.

(** With room in the buffer for the whole batch and no worker receiving, the
    loop of the run goes through the batch as [rangeUpdates] does, and comes
    back to the top of its cycle with that watermark and that buffer. *)
Lemma loop_runs_batch (bufSize : nat) (updates : list Update) (s : state) :
  loop s = LRange updates ->
  (length (updateC s) + length updates <= bufSize)%nat ->
  exists s',
    steps bufSize s s'
    /\ loop s' = LTop
    /\ (offset s', updateC s') = rangeUpdates (offset s) (updateC s) updates
    /\ sent s' = sent s ++ drop (length (updateC s)) (updateC s').
Proof.
  revert s. induction updates as [|u rest IH]; intros s Hl Hroom.
  - exists (set_loop LTop s). split; [apply steps_one, loop_range_end, Hl|].
    repeat split. simpl. rewrite drop_all, app_nil_r. reflexivity.
  - simpl in Hroom. unfold rangeUpdates. simpl.
    destruct (UpdateID u >=? offset s) eqn:E.
    + pose (s1 := set_loop (LSend u rest) (set_offset (GoInt.add (UpdateID u) 1) s)).
      pose (s2 := set_loop (LRange rest)
                    (set_sent (sent s1 ++ [u]) (set_updateC (updateC s1 ++ [u]) s1))).
      destruct (IH s2 eq_refl) as (s' & Hsteps & Hl' & Hr & Hsent).
      { simpl. rewrite length_app. simpl. lia. }
      exists s'. split; [|split; [exact Hl'|split]].
      * eapply steps_trans; [|exact Hsteps].
        eapply steps_trans; [apply steps_one | apply steps_one].
        -- apply (loop_range_advance bufSize s u rest Hl).
           rewrite Z.geb_leb in E. apply Z.leb_le in E. lia.
        -- apply (loop_send_buffer bufSize s1 u rest eq_refl). simpl. lia.
      * exact Hr.
      * rewrite Hsent. simpl. rewrite length_app. simpl.
        assert (Hpre : exists kept, updateC s' = (updateC s ++ [u]) ++ kept).
        { destruct (rangeUpdates_sent rest (GoInt.add (UpdateID u) 1) (updateC s ++ [u]))
            as (kept & Hk & _).
          exists kept. simpl in Hr. rewrite <- Hr in Hk. exact Hk. }
        destruct Hpre as (kept & ->).
        rewrite drop_app_length'; [|rewrite length_app; simpl; lia].
        rewrite <- !app_assoc. rewrite drop_app_length. reflexivity.
    + pose (s1 := set_loop (LRange rest) s).
      destruct (IH s1 eq_refl) as (s' & Hsteps & Hl' & Hr & Hsent); [simpl; lia|].
      exists s'. split; [|split; [exact Hl'|split; [exact Hr | exact Hsent]]].
      eapply steps_trans; [apply steps_one | exact Hsteps].
      apply (loop_range_skip bufSize s u rest Hl).
      rewrite Z.geb_leb in E. apply Z.leb_gt in E. exact E.
Qed.

(** * Further properties of a run *)

(** ** The channel and the wait group *)

Lemma live_le_length (ws : list worker_pc) : (live ws <= length ws)%nat.
Proof. induction ws as [|w ws IH]; simpl; [lia|]. destruct w; simpl; lia. Qed.

Lemma channel_invariant (bufSize workerNum : nat) (offset0 : Z) (s : state) :
  reachable bufSize workerNum offset0 s ->
  (length (updateC s) <= bufSize)%nat
  /\ updateC s `suffix_of` sent s
  /\ length (workers s) = workerNum.
Proof.
  induction 1 as [|s s' _ (Hlen & Hsuf & Hws) Hstep].
  - simpl. repeat split; [lia | reflexivity | apply length_replicate].
  - step_cases Hstep; repeat split; auto; rewrite ?length_insert; auto.
    + rewrite length_app. simpl. lia.
    + apply suffix_app. exact Hsuf.
    + match goal with Hc : updateC s = [] |- _ => rewrite Hc end.
      apply suffix_nil.
    + match goal with Hc : updateC s = _ :: _ |- _ => rewrite Hc in Hlen end.
      simpl in Hlen. lia.
    + match goal with Hc : updateC s = _ :: _ |- _ => rewrite Hc in Hsuf end.
      eapply suffix_cons_l, Hsuf.
Qed.

(** X19: in every state of a run the channel holds at most [bufSize]
    updates, and they are the latest ones sent, in the order of their
    sending: nothing enters the channel but by a send of the loop, at its
    end, and nothing leaves it but from its head. *)
Theorem channel_bounded_fifo (bufSize workerNum : nat) (offset0 : Z) (s : state) :
  reachable bufSize workerNum offset0 s ->
  (length (updateC s) <= bufSize)%nat
  /\ exists received, sent s = received ++ updateC s.
Proof.
  intros Hr. destruct (channel_invariant _ _ _ _ Hr) as (Hlen & Hsuf & _).
  split; [exact Hlen | exact Hsuf].
Qed.

Lemma channel_bounded_fifo_witness :
  let s := Sample.at_second_send true [WExit] 0 SReturned in
  (length (updateC s) <= 1)%nat /\ exists received, sent s = received ++ updateC s.
Proof. exact (channel_bounded_fifo 1 1 0 _ reachable_at_second_send). Defined.

(** X20: a run never gains or loses a worker: there are [workerNum] of
    them in every state, and the counter of the wait group is the number of
    those that have not returned, so never above [workerNum]. *)
Theorem workers_counted (bufSize workerNum : nat) (offset0 : Z) (s : state) :
  reachable bufSize workerNum offset0 s ->
  length (workers s) = workerNum
  /\ wg s = live (workers s)
  /\ (wg s <= workerNum)%nat.
Proof.
  intros Hr. destruct (channel_invariant _ _ _ _ Hr) as (_ & _ & Hws).
  destruct (run_invariant_holds _ _ _ _ Hr) as (Hwg & _).
  repeat split; [exact Hws | exact Hwg |].
  rewrite Hwg, <- Hws. apply live_le_length.
Qed.

Lemma workers_counted_witness :
  let s := Sample.at_second_send true [WExit] 0 SReturned in
  length (workers s) = 1%nat /\ wg s = live (workers s) /\ (wg s <= 1)%nat.
Proof. exact (workers_counted 1 1 0 _ reachable_at_second_send). Defined.

(** ** No update is sent twice *)







(** ** After [Stop] and after the loop *)

Lemma steps_without_workers (bufSize : nat) (a b : state) :
  steps bufSize a b ->
  Forall (fun w => w = WExit) (workers a) ->
  workers b = workers a
  /\ updateC a `prefix_of` updateC b
  /\ (stop a = SReturned -> stop b = SReturned).
Proof.
  unfold steps. induction 1 as [a | a b c _ Hstep _ IH]; intros Hall.
  - repeat split; auto.
  - assert (Hno : forall i w, workers a !! i = Some w -> w = WExit).
    { intros i w Hi. rewrite Forall_forall in Hall.
      apply Hall. eapply list_elem_of_lookup_2, Hi. }
    assert (Hb : workers b = workers a /\ updateC a `prefix_of` updateC b
                 /\ (stop a = SReturned -> stop b = SReturned)).
    { step_cases Hstep; repeat split; auto; try congruence;
        try (match goal with
             | Hi : workers a !! _ = Some _ |- _ => apply Hno in Hi; discriminate
             end).
      apply prefix_app_r. reflexivity. }
    destruct Hb as (Hw & Hp & Hs).
    destruct IH as (Hw' & Hp' & Hs'); [rewrite Hw; exact Hall|].
    repeat split.
    + congruence.
    + etransitivity; eassumption.
    + auto.
Qed.

(** X22: after [Stop] has returned no worker ever receives again: every
    worker has returned for good, [Stop] stays returned, and what is in the
    channel stays there, at its head, whatever the loop still sends; the
    updates left in the channel are never handled. *)
Theorem nothing_handled_after_Stop (bufSize workerNum : nat) (offset0 : Z)
  (s s' : state) :
  reachable bufSize workerNum offset0 s ->
  stop s = SReturned ->
  steps bufSize s s' ->
  Forall (fun w => w = WExit) (workers s')
  /\ stop s' = SReturned
  /\ exists later, updateC s' = updateC s ++ later.
Proof.
  intros Hr Hstop Hsteps.
  destruct (run_invariant_holds _ _ _ _ Hr) as (Hwg & _ & Hret).
  assert (Hall : Forall (fun w => w = WExit) (workers s)).
  { apply live_none. rewrite <- Hwg. apply Hret, Hstop. }
  destruct (steps_without_workers _ _ _ Hsteps Hall) as (Hw & Hp & Hs).
  rewrite Hw. repeat split; [exact Hall | apply Hs, Hstop | exact Hp].
Qed.

Lemma nothing_handled_after_Stop_witness :
  let s := Sample.at_second_send true [WExit] 0 SReturned in
  Forall (fun w => w = WExit) (workers (set_cancelled true s))
  /\ stop (set_cancelled true s) = SReturned
  /\ exists later, updateC (set_cancelled true s) = updateC s ++ later.
Proof.
  intros s.
  apply (nothing_handled_after_Stop 1 1 0 s (set_cancelled true s)
           reachable_at_second_send eq_refl).
  apply steps_one, parent_cancel.
Defined.

(** X23: the cancellation is for good, and so is the return of the loop:
    once the context is cancelled it stays cancelled, and once the loop has
    returned it stays returned, the watermark no longer moves and nothing
    more is sent. *)
Theorem loop_exit_is_final (bufSize : nat) (s s' : state) :
  steps bufSize s s' ->
  (cancelled s = true -> cancelled s' = true)
  /\ (loop s = LExit ->
      loop s' = LExit /\ offset s' = offset s /\ sent s' = sent s).
Proof.
  unfold steps. induction 1 as [a | a b c _ Hstep _ [IHc IHl]]; [auto|].
  assert (Hb : (cancelled a = true -> cancelled b = true)
               /\ (loop a = LExit ->
                   loop b = LExit /\ offset b = offset a /\ sent b = sent a)).
  { step_cases Hstep; split; auto; intros; try congruence; auto. }
  destruct Hb as [Hc Hl]. split; [auto|].
  intros Ha. destruct (Hl Ha) as (H1 & H2 & H3).
  destruct (IHl H1) as (H4 & H5 & H6). repeat split; congruence.
Qed.

Lemma loop_exit_is_final_witness :
  let s := set_loop LExit (set_cancelled true (started 1 0)) in
  let s' := set_stop SWait (set_cancelled true s) in
  (cancelled s = true -> cancelled s' = true)
  /\ (loop s = LExit ->
      loop s' = LExit /\ offset s' = offset s /\ sent s' = sent s).
Proof.
  intros s s'. apply (loop_exit_is_final 1 s s').
  apply steps_one, stop_cancel. reflexivity.
Defined.

(** ** A run without workers *)




Lemma loop_runs_batch_witness :
  exists s',
    steps 2 (Sample.fetched [Sample.u5; Sample.u6]) s'
    /\ loop s' = LTop
    /\ (offset s', updateC s') = rangeUpdates 0 [] [Sample.u5; Sample.u6]
    /\ sent s' = [] ++ drop 0 (updateC s').
Proof.
  apply (loop_runs_batch 2 [Sample.u5; Sample.u6]
           (Sample.fetched [Sample.u5; Sample.u6])).
  - reflexivity.
  - simpl. lia.
Defined.
